(** * Muted notification filter: gate engine, trigger controller, clip length

    A shallow embedding of the audio filter of the muted-notification
    plugin ([muted_update], [load_wav], [open_device], [muted_filter_audio])
    together with the properties of its gate/envelope state machine and of
    its trigger/cooldown logic.

    C [float] is IEEE 754 binary32, modelled by [spec_float] with a 24 bit
    significand; [uint64_t] and [int] are integers with their wrap-around
    written out. *)

From Stdlib Require Import ZArith List Bool Lia String.
From Stdlib Require Import Floats.SpecFloat.
Import ListNotations.
Local Open Scope Z_scope.

(** ** C arithmetic *)

(** [float]: binary32, round to nearest even. *)
Definition float : Type := spec_float.

Module F32.
Definition prec : Z := 24.
Definition emax : Z := 128.

Definition zero : float := S754_zero false.
Definition of_int (z : Z) : float := binary_normalize prec emax z 0 false.
Definition one : float := Eval cbv in of_int 1.

Definition add : float -> float -> float := SFadd prec emax.
Definition sub : float -> float -> float := SFsub prec emax.
Definition mul : float -> float -> float := SFmul prec emax.
Definition div : float -> float -> float := SFdiv prec emax.

(** Comparison is by value: a finite number is its signed significand
    times a power of two, the two zeros are equal, a NaN compares with
    nothing.  On valid binary32 data this is [SFcompare] (lemma
    [compare_valid] below). *)
Definition scaled (s : bool) (m : positive) (e emn : Z) : Z :=
  cond_Zopp s (Z.pos m) * 2 ^ (e - emn).

Definition compare (x y : float) : option comparison :=
  match x, y with
  | S754_nan, _ | _, S754_nan => None
  | S754_infinity sx, S754_infinity sy =>
      Some (match sx, sy with
            | true, false => Lt
            | false, true => Gt
            | _, _ => Eq
            end)
  | S754_infinity s, _ => Some (if s then Lt else Gt)
  | _, S754_infinity s => Some (if s then Gt else Lt)
  | S754_zero _, S754_zero _ => Some Eq
  | S754_zero _, S754_finite s _ _ => Some (if s then Gt else Lt)
  | S754_finite s _ _, S754_zero _ => Some (if s then Lt else Gt)
  | S754_finite sx mx ex, S754_finite sy my ey =>
      let emn := Z.min ex ey in
      Some (Z.compare (scaled sx mx ex emn) (scaled sy my ey emn))
  end.

(** [x < y]; false as soon as one side is a NaN. *)
Definition lt (x y : float) : bool :=
  match compare x y with
  | Some Lt => true
  | _ => false
  end.
(** [x > y] *)
Definition gt (x y : float) : bool := lt y x.
(** [x <= y] *)
Definition le (x y : float) : bool :=
  match compare x y with
  | Some (Lt | Eq) => true
  | _ => false
  end.

Definition fabsf (x : float) : float := SFabs x.

(** [fmaxf], [fminf]: a NaN argument is treated as missing data; on a
    tie the first argument is returned. *)
Definition fmaxf (x y : float) : float :=
  match x, y with
  | S754_nan, _ => y
  | _, S754_nan => x
  | _, _ => if lt x y then y else x
  end.

Definition fminf (x y : float) : float :=
  match x, y with
  | S754_nan, _ => y
  | _, S754_nan => x
  | _, _ => if lt y x then y else x
  end.

(** Conversion of a [double] (binary64 datum) to [float]. *)
Definition of_double (d : spec_float) : float :=
  match d with
  | S754_finite s m e => binary_round prec emax s m e
  | _ => d
  end.

(** Conversion to an integer type truncates toward zero (the value is
    unspecified by C when it does not fit or is not finite; 0 here). *)
Definition trunc (x : float) : Z :=
  match x with
  | S754_finite s m e =>
      cond_Zopp s (if 0 <=? e then Z.pos m * 2 ^ e else Z.pos m / 2 ^ (- e))
  | _ => 0
  end.

(** The value is in the closed interval [0, 1]. *)
Definition in_unit (x : float) : bool := le zero x && le x one.
End F32.

Arguments F32.add : simpl never.
Arguments F32.sub : simpl never.
Arguments F32.mul : simpl never.
Arguments F32.div : simpl never.
Arguments F32.compare : simpl never.
Arguments F32.lt : simpl never.
Arguments F32.gt : simpl never.
Arguments F32.le : simpl never.
Arguments F32.fmaxf : simpl never.
Arguments F32.fminf : simpl never.
Arguments F32.fabsf : simpl never.
Arguments F32.of_int : simpl never.

(** [uint64_t] and [int] *)
Definition wrap64 (z : Z) : Z := z mod 2 ^ 64.
Definition to_int (z : Z) : Z := (z + 2 ^ 31) mod 2 ^ 32 - 2 ^ 31.

(** ** Data *)

(** What the filter reads of a [ma_decoder] once [ma_decoder_init_file]
    succeeded: the output sample rate, and the answer of
    [ma_decoder_get_length_in_pcm_frames] ([None] when that call fails). *)
Record ma_decoder := {
  outputSampleRate : Z;
  length_in_pcm_frames : option Z
}.

(** [struct muted_data].  The miniaudio context, log and device objects are
    opaque to the filter; of the decoder and of the device the record keeps
    whether they are initialised. *)
Record muted_data := {
  file_path : option string;
  device : option string;
  ma_initialized : bool;
  ma_decoder_st : option ma_decoder;

  sample_rate_i : float;
  channels : nat;

  open_threshold : float;
  close_threshold : float;
  decay_rate : float;
  attack_rate : float;
  release_rate : float;
  hold_time : float;

  is_open : bool;
  attenuation : float;
  level : float;
  held_time : float;

  cooldown : Z;
  last_play_time : Z;
  file_length : Z;

  audio_indicator : bool;
  visual_indicator : bool;

  indicator_size : Z
}.

Definition set_is_open (ng : muted_data) (b : bool) : muted_data :=
  {| file_path := file_path ng; device := device ng;
     ma_initialized := ma_initialized ng; ma_decoder_st := ma_decoder_st ng;
     sample_rate_i := sample_rate_i ng; channels := channels ng;
     open_threshold := open_threshold ng; close_threshold := close_threshold ng;
     decay_rate := decay_rate ng; attack_rate := attack_rate ng;
     release_rate := release_rate ng; hold_time := hold_time ng;
     is_open := b; attenuation := attenuation ng; level := level ng;
     held_time := held_time ng; cooldown := cooldown ng;
     last_play_time := last_play_time ng; file_length := file_length ng;
     audio_indicator := audio_indicator ng;
     visual_indicator := visual_indicator ng;
     indicator_size := indicator_size ng |}.

Definition set_attenuation (ng : muted_data) (x : float) : muted_data :=
  {| file_path := file_path ng; device := device ng;
     ma_initialized := ma_initialized ng; ma_decoder_st := ma_decoder_st ng;
     sample_rate_i := sample_rate_i ng; channels := channels ng;
     open_threshold := open_threshold ng; close_threshold := close_threshold ng;
     decay_rate := decay_rate ng; attack_rate := attack_rate ng;
     release_rate := release_rate ng; hold_time := hold_time ng;
     is_open := is_open ng; attenuation := x; level := level ng;
     held_time := held_time ng; cooldown := cooldown ng;
     last_play_time := last_play_time ng; file_length := file_length ng;
     audio_indicator := audio_indicator ng;
     visual_indicator := visual_indicator ng;
     indicator_size := indicator_size ng |}.

Definition set_level (ng : muted_data) (x : float) : muted_data :=
  {| file_path := file_path ng; device := device ng;
     ma_initialized := ma_initialized ng; ma_decoder_st := ma_decoder_st ng;
     sample_rate_i := sample_rate_i ng; channels := channels ng;
     open_threshold := open_threshold ng; close_threshold := close_threshold ng;
     decay_rate := decay_rate ng; attack_rate := attack_rate ng;
     release_rate := release_rate ng; hold_time := hold_time ng;
     is_open := is_open ng; attenuation := attenuation ng; level := x;
     held_time := held_time ng; cooldown := cooldown ng;
     last_play_time := last_play_time ng; file_length := file_length ng;
     audio_indicator := audio_indicator ng;
     visual_indicator := visual_indicator ng;
     indicator_size := indicator_size ng |}.

Definition set_held_time (ng : muted_data) (x : float) : muted_data :=
  {| file_path := file_path ng; device := device ng;
     ma_initialized := ma_initialized ng; ma_decoder_st := ma_decoder_st ng;
     sample_rate_i := sample_rate_i ng; channels := channels ng;
     open_threshold := open_threshold ng; close_threshold := close_threshold ng;
     decay_rate := decay_rate ng; attack_rate := attack_rate ng;
     release_rate := release_rate ng; hold_time := hold_time ng;
     is_open := is_open ng; attenuation := attenuation ng; level := level ng;
     held_time := x; cooldown := cooldown ng;
     last_play_time := last_play_time ng; file_length := file_length ng;
     audio_indicator := audio_indicator ng;
     visual_indicator := visual_indicator ng;
     indicator_size := indicator_size ng |}.

Definition set_last_play_time (ng : muted_data) (t : Z) : muted_data :=
  {| file_path := file_path ng; device := device ng;
     ma_initialized := ma_initialized ng; ma_decoder_st := ma_decoder_st ng;
     sample_rate_i := sample_rate_i ng; channels := channels ng;
     open_threshold := open_threshold ng; close_threshold := close_threshold ng;
     decay_rate := decay_rate ng; attack_rate := attack_rate ng;
     release_rate := release_rate ng; hold_time := hold_time ng;
     is_open := is_open ng; attenuation := attenuation ng; level := level ng;
     held_time := held_time ng; cooldown := cooldown ng;
     last_play_time := t; file_length := file_length ng;
     audio_indicator := audio_indicator ng;
     visual_indicator := visual_indicator ng;
     indicator_size := indicator_size ng |}.

Definition set_file_length (ng : muted_data) (n : Z) : muted_data :=
  {| file_path := file_path ng; device := device ng;
     ma_initialized := ma_initialized ng; ma_decoder_st := ma_decoder_st ng;
     sample_rate_i := sample_rate_i ng; channels := channels ng;
     open_threshold := open_threshold ng; close_threshold := close_threshold ng;
     decay_rate := decay_rate ng; attack_rate := attack_rate ng;
     release_rate := release_rate ng; hold_time := hold_time ng;
     is_open := is_open ng; attenuation := attenuation ng; level := level ng;
     held_time := held_time ng; cooldown := cooldown ng;
     last_play_time := last_play_time ng; file_length := n;
     audio_indicator := audio_indicator ng;
     visual_indicator := visual_indicator ng;
     indicator_size := indicator_size ng |}.

Definition set_file_path (ng : muted_data) (p : option string) : muted_data :=
  {| file_path := p; device := device ng;
     ma_initialized := ma_initialized ng; ma_decoder_st := ma_decoder_st ng;
     sample_rate_i := sample_rate_i ng; channels := channels ng;
     open_threshold := open_threshold ng; close_threshold := close_threshold ng;
     decay_rate := decay_rate ng; attack_rate := attack_rate ng;
     release_rate := release_rate ng; hold_time := hold_time ng;
     is_open := is_open ng; attenuation := attenuation ng; level := level ng;
     held_time := held_time ng; cooldown := cooldown ng;
     last_play_time := last_play_time ng; file_length := file_length ng;
     audio_indicator := audio_indicator ng;
     visual_indicator := visual_indicator ng;
     indicator_size := indicator_size ng |}.

Definition set_device (ng : muted_data) (d : option string) : muted_data :=
  {| file_path := file_path ng; device := d;
     ma_initialized := ma_initialized ng; ma_decoder_st := ma_decoder_st ng;
     sample_rate_i := sample_rate_i ng; channels := channels ng;
     open_threshold := open_threshold ng; close_threshold := close_threshold ng;
     decay_rate := decay_rate ng; attack_rate := attack_rate ng;
     release_rate := release_rate ng; hold_time := hold_time ng;
     is_open := is_open ng; attenuation := attenuation ng; level := level ng;
     held_time := held_time ng; cooldown := cooldown ng;
     last_play_time := last_play_time ng; file_length := file_length ng;
     audio_indicator := audio_indicator ng;
     visual_indicator := visual_indicator ng;
     indicator_size := indicator_size ng |}.

Definition set_ma_decoder (ng : muted_data) (d : option ma_decoder) : muted_data :=
  {| file_path := file_path ng; device := device ng;
     ma_initialized := ma_initialized ng; ma_decoder_st := d;
     sample_rate_i := sample_rate_i ng; channels := channels ng;
     open_threshold := open_threshold ng; close_threshold := close_threshold ng;
     decay_rate := decay_rate ng; attack_rate := attack_rate ng;
     release_rate := release_rate ng; hold_time := hold_time ng;
     is_open := is_open ng; attenuation := attenuation ng; level := level ng;
     held_time := held_time ng; cooldown := cooldown ng;
     last_play_time := last_play_time ng; file_length := file_length ng;
     audio_indicator := audio_indicator ng;
     visual_indicator := visual_indicator ng;
     indicator_size := indicator_size ng |}.

Definition set_ma_initialized (ng : muted_data) (b : bool) : muted_data :=
  {| file_path := file_path ng; device := device ng;
     ma_initialized := b; ma_decoder_st := ma_decoder_st ng;
     sample_rate_i := sample_rate_i ng; channels := channels ng;
     open_threshold := open_threshold ng; close_threshold := close_threshold ng;
     decay_rate := decay_rate ng; attack_rate := attack_rate ng;
     release_rate := release_rate ng; hold_time := hold_time ng;
     is_open := is_open ng; attenuation := attenuation ng; level := level ng;
     held_time := held_time ng; cooldown := cooldown ng;
     last_play_time := last_play_time ng; file_length := file_length ng;
     audio_indicator := audio_indicator ng;
     visual_indicator := visual_indicator ng;
     indicator_size := indicator_size ng |}.

(** The values [muted_update] reads from the settings object, as the
    [obs_data_get_*] accessors return them: [double] for the thresholds in
    dB, [long long] for the integers. *)
Record obs_data := {
  s_file : string;
  s_device : string;
  s_open_threshold : spec_float;
  s_close_threshold : spec_float;
  s_attack_time : Z;
  s_hold_time : Z;
  s_release_time : Z;
  s_cooldown : Z;
  s_audio_indicator : bool;
  s_visual_indicator : bool;
  s_visual_indicator_size : Z
}.

(** What the host and the audio backend answer: the output sample rate and
    channel count of [obs_get_audio ()], the outcome of
    [ma_decoder_init_file] per path, the playback devices
    [ma_context_get_devices] lists ([None]: the call fails) and the outcome
    of [ma_device_init] per device name. *)
Record host := {
  audio_output_get_sample_rate : Z;
  audio_output_get_channels : nat;
  ma_decoder_init_file : string -> option ma_decoder;
  ma_context_get_devices : option (list string);
  ma_device_init : string -> bool
}.

(** [struct obs_audio_data]: [frames] samples in each plane of [data];
    [data] holds one plane per channel. *)
Record obs_audio_data := {
  data : list (list float);
  frames : nat
}.

(** [adata[j][i]]; the planes of a buffer the host delivers hold [frames]
    samples each, a read outside them does not occur. *)
Definition adata (audio : obs_audio_data) (j i : nat) : float :=
  nth i (nth j (data audio) []) F32.zero.

(** Calls the filter makes to the playback unit and to the indicator. *)
Inductive call :=
| play_audio
| indicator_show (timeout_ms : Z) (indicator_size : Z).

(** ** Operations *)

Definition ms_to_secf (ms : Z) : float :=
  F32.div (F32.of_int ms) (F32.of_int 1000).

Definition free_device (d : muted_data) : muted_data :=
  set_device d None.

Definition free_wav (d : muted_data) : muted_data :=
  set_file_path (set_ma_decoder d None) None.

(** [load_wav]: [frameCount / outputSampleRate] is a division of unsigned
    integers (a decoder that opened a file reports a sample rate above
    0). *)
Definition load_wav (h : host) (d : muted_data) (path : string) : muted_data :=
  match ma_decoder_init_file h path with
  | Some dec =>
      let d1 := set_file_path (set_ma_decoder d (Some dec)) (Some path) in
      match length_in_pcm_frames dec with
      | Some frameCount =>
          set_file_length d1
            (wrap64 (frameCount / outputSampleRate dec * 1000))
      | None => d1
      end
  | None => d
  end.

Definition open_device (h : host) (d : muted_data) (name : string) : muted_data :=
  match ma_context_get_devices h with
  | None => d
  | Some devices =>
      if existsb (String.eqb name) devices then
        if ma_device_init h name then set_device d (Some name) else d
      else d
  end.

(** [!p || strcmp (s, p) != 0] *)
Definition differs (s : string) (p : option string) : bool :=
  match p with
  | None => true
  | Some p' => negb (String.eqb s p')
  end.

Section Filter.

(** [db_to_mul] of libobs ([media-io/audio-math.h]): the linear gain of
    a level in dB. *)
Variable db_to_mul : float -> float.

Definition muted_update (h : host) (ng : muted_data) (s : obs_data) : muted_data :=
  let path := s_file s in
  let device_name := s_device s in
  let open_threshold_db := F32.of_double (s_open_threshold s) in
  let close_threshold_db := F32.of_double (s_close_threshold s) in
  let attack_time_ms := to_int (s_attack_time s) in
  let hold_time_ms := to_int (s_hold_time s) in
  let release_time_ms := to_int (s_release_time s) in
  let sample_rate := F32.of_int (audio_output_get_sample_rate h) in
  let open_t := db_to_mul open_threshold_db in
  let close_t := db_to_mul close_threshold_db in
  let threshold_diff := F32.sub open_t close_t in
  let min_decay_period :=
    F32.mul (F32.div (F32.of_int 1) (F32.of_int 75)) sample_rate in
  let ng1 :=
    {| file_path := file_path ng;
       device := device ng;
       ma_initialized := ma_initialized ng;
       ma_decoder_st := ma_decoder_st ng;
       sample_rate_i := F32.div (F32.of_int 1) sample_rate;
       channels := audio_output_get_channels h;
       open_threshold := open_t;
       close_threshold := close_t;
       decay_rate := F32.div threshold_diff min_decay_period;
       attack_rate :=
         F32.div (F32.of_int 1) (F32.mul (ms_to_secf attack_time_ms) sample_rate);
       release_rate :=
         F32.div (F32.of_int 1) (F32.mul (ms_to_secf release_time_ms) sample_rate);
       hold_time := ms_to_secf hold_time_ms;
       is_open := false;
       attenuation := F32.zero;
       level := F32.zero;
       held_time := F32.zero;
       cooldown := wrap64 (to_int (s_cooldown s));
       last_play_time := last_play_time ng;
       file_length := file_length ng;
       audio_indicator := s_audio_indicator s;
       visual_indicator := s_visual_indicator s;
       indicator_size := to_int (s_visual_indicator_size s) |} in
  let ng2 :=
    if differs path (file_path ng1) then
      open_device h (free_device (load_wav h (free_wav ng1) path)) device_name
    else ng1 in
  if differs device_name (device ng2) then
    open_device h (free_device ng2) device_name
  else ng2.

(** The zeroed structure [bzalloc] returns. *)
Definition bzalloc_muted_data : muted_data :=
  {| file_path := None; device := None; ma_initialized := false;
     ma_decoder_st := None;
     sample_rate_i := F32.zero; channels := 0%nat;
     open_threshold := F32.zero; close_threshold := F32.zero;
     decay_rate := F32.zero; attack_rate := F32.zero;
     release_rate := F32.zero; hold_time := F32.zero;
     is_open := false; attenuation := F32.zero; level := F32.zero;
     held_time := F32.zero;
     cooldown := 0; last_play_time := 0; file_length := 0;
     audio_indicator := false; visual_indicator := false;
     indicator_size := 0 |}.

(** [muted_create]; [backend_ok] tells whether [ma_log_init],
    [ma_log_register_callback] and [ma_context_init] all succeeded. *)
Definition muted_create (h : host) (backend_ok : bool) (settings : obs_data)
  : muted_data :=
  if backend_ok then
    muted_update h (set_ma_initialized bzalloc_muted_data true) settings
  else bzalloc_muted_data.

End Filter.

(** *** The gate engine: one iteration of the sample loop *)

(** [cur_level] of sample [i]: the largest absolute value over the
    channels, starting from channel 0. *)
Definition cur_level_at (nchannels : nat) (audio : obs_audio_data) (i : nat) : float :=
  fold_left (fun cur j => F32.fmaxf cur (F32.fabsf (adata audio j i)))
            (seq 0 nchannels)
            (F32.fabsf (adata audio 0 i)).

(** The two tests on the gate. *)
Definition gate_open (ng : muted_data) (cur_level : float) : muted_data :=
  if F32.gt cur_level (open_threshold ng) && negb (is_open ng)
  then set_is_open ng true
  else ng.

Definition gate_close (ng : muted_data) : muted_data :=
  if F32.lt (level ng) (close_threshold ng) && is_open ng
  then set_is_open (set_held_time ng F32.zero) false
  else ng.

Definition update_level (ng : muted_data) (cur_level : float) : muted_data :=
  set_level ng (F32.sub (F32.fmaxf (level ng) cur_level) (decay_rate ng)).

Definition update_attenuation (ng : muted_data) : muted_data :=
  if is_open ng then
    set_attenuation ng
      (F32.fminf F32.one (F32.add (attenuation ng) (attack_rate ng)))
  else
    let ng' := set_held_time ng (F32.add (held_time ng) (sample_rate_i ng)) in
    if F32.gt (held_time ng') (hold_time ng') then
      set_attenuation ng'
        (F32.fmaxf F32.zero (F32.sub (attenuation ng') (release_rate ng')))
    else ng'.

(** The body of the loop over the samples, for a sample of level
    [cur_level]. *)
Definition sample_step (ng : muted_data) (cur_level : float) : muted_data :=
  update_attenuation (update_level (gate_close (gate_open ng cur_level)) cur_level).

(** The loop: the levels of the samples [0 .. frames - 1], in order. *)
Definition sample_levels (nchannels : nat) (audio : obs_audio_data) : list float :=
  map (cur_level_at nchannels audio) (seq 0 (frames audio)).

Definition sample_loop (ng : muted_data) (levels : list float) : muted_data :=
  fold_left sample_step levels ng.

(** The state the loop of [muted_filter_audio] leaves for a buffer. *)
Definition filter_loop (ng : muted_data) (audio : obs_audio_data) : muted_data :=
  sample_loop ng (sample_levels (channels ng) audio).

(** *** The trigger *)

(** [(uint64_t)(os_gettime_ns () / ((uint64_t)1e6))] *)
Definition time_ms (now_ns : Z) : Z := wrap64 now_ns / 1000000.

(** The test [ng->is_open && (time - ng->last_play_time) >
    (ng->file_length + ng->cooldown)], on [uint64_t]. *)
Definition elapsed (ng : muted_data) (time : Z) : Z :=
  wrap64 (time - last_play_time ng).

Definition refractory (ng : muted_data) : Z :=
  wrap64 (file_length ng + cooldown ng).

Definition trigger_due (ng : muted_data) (time : Z) : bool :=
  is_open ng && (refractory ng <? elapsed ng time).

(** [0.7f] *)
Definition f0_7 : float := S754_finite false 11744051 (-24).

(** The calls of a trigger; the first argument of [indicator_show] is an
    [int], the product [ng->cooldown * 0.7f] is converted to it. *)
Definition trigger_calls (ng : muted_data) : list call :=
  (if audio_indicator ng then [play_audio] else []) ++
  (if visual_indicator ng
   then [indicator_show
           (to_int (F32.trunc (F32.mul (F32.of_int (cooldown ng)) f0_7)))
           (indicator_size ng)]
   else []).

(** What one call of [muted_filter_audio] leaves: the state, whether the
    trigger branch was taken, and the calls it made. *)
Record filter_result := {
  fr_state : muted_data;
  fr_fired : bool;
  fr_calls : list call
}.

(** [muted_filter_audio]; [parent_muted] is [obs_source_muted (parent)] and
    [now_ns] is what [os_gettime_ns ()] returns after the loop. *)
Definition muted_filter_audio (ng : muted_data) (parent_muted : bool)
    (audio : obs_audio_data) (now_ns : Z) : filter_result :=
  if negb parent_muted then
    {| fr_state := set_is_open ng false; fr_fired := false; fr_calls := [] |}
  else
    let ng' := filter_loop ng audio in
    let time := time_ms now_ns in
    if trigger_due ng' time then
      let ng'' := set_last_play_time ng' time in
      {| fr_state := ng''; fr_fired := true; fr_calls := trigger_calls ng'' |}
    else
      {| fr_state := ng'; fr_fired := false; fr_calls := [] |}.

(** *** Runs of the filter *)

(** One call of [muted_filter_audio] as the host makes it. *)
Record buffer_in := {
  in_muted : bool;
  in_audio : obs_audio_data;
  in_now_ns : Z
}.

Definition filter_call (ng : muted_data) (b : buffer_in) : filter_result :=
  muted_filter_audio ng (in_muted b) (in_audio b) (in_now_ns b).

(** The results of the successive calls. *)
Fixpoint run (ng : muted_data) (ins : list buffer_in) : list filter_result :=
  match ins with
  | [] => []
  | b :: rest =>
      let r := filter_call ng b in
      r :: run (fr_state r) rest
  end.

(** The state the successive calls leave. *)
Definition run_state (ng : muted_data) (ins : list buffer_in) : muted_data :=
  fold_left (fun s b => fr_state (filter_call s b)) ins ng.

(** The states after each iteration of the sample loop. *)
Fixpoint loop_trace (ng : muted_data) (levels : list float) : list muted_data :=
  match levels with
  | [] => []
  | c :: rest =>
      let ng' := sample_step ng c in
      ng' :: loop_trace ng' rest
  end.

(** The states after each iteration of the sample loop, over successive
    calls (a call for an unmuted source runs no iteration). *)
Fixpoint run_trace (ng : muted_data) (ins : list buffer_in) : list muted_data :=
  match ins with
  | [] => []
  | b :: rest =>
      (if in_muted b
       then loop_trace ng (sample_levels (channels ng) (in_audio b))
       else []) ++ run_trace (fr_state (filter_call ng b)) rest
  end.

(** ** Sample data for the concrete statements *)

(** The numbers and switches [muted_defaults] sets.  The clip stands for
    the "urmuted.wav" of the module's data directory, and a playback
    device named "default" is selected ([muted_defaults] itself leaves
    the device unselected). *)
Definition double_of_int (z : Z) : spec_float := binary_normalize 53 1024 z 0 false.

Definition default_settings : obs_data :=
  {| s_file := "urmuted.wav";
     s_device := "default";
     s_open_threshold := double_of_int (-26);
     s_close_threshold := double_of_int (-32);
     s_attack_time := 25;
     s_hold_time := 200;
     s_release_time := 150;
     s_cooldown := 1500;
     s_audio_indicator := false;
     s_visual_indicator := true;
     s_visual_indicator_size := 45 |}.

(** The gains [db_to_mul] of libobs, [powf(10.0f, db / 20.0f)], returns
    in binary32 for four thresholds: the defaults -26 dB (about 0.0501)
    and -32 dB (about 0.0251), and -95 dB and -96 dB (about 1.78e-5 and
    1.58e-5) near the lower end of the range of the sliders. *)
Definition db_to_mul_table (db : float) : float :=
  if SFeqb db (F32.of_int (-26)) then S754_finite false 13453644 (-28)
  else if SFeqb db (F32.of_int (-32)) then S754_finite false 13485587 (-29)
  else if SFeqb db (F32.of_int (-95)) then S754_finite false 9776194 (-39)
  else if SFeqb db (F32.of_int (-96)) then S754_finite false 8713039 (-39)
  else F32.zero.

(** A host running at 48 kHz stereo, whose clip is 1.5 s long (72000
    frames at 48 kHz). *)
Definition sample_host : host :=
  {| audio_output_get_sample_rate := 48000;
     audio_output_get_channels := 2%nat;
     ma_decoder_init_file := fun path =>
       if String.eqb path "urmuted.wav"
       then Some {| outputSampleRate := 48000; length_in_pcm_frames := Some 72000 |}
       else None;
     ma_context_get_devices := Some ["default"%string];
     ma_device_init := fun _ => true |}.

(** The filter as created with the default settings. *)
Definition sample_filter : muted_data :=
  muted_create db_to_mul_table sample_host true default_settings.

(** Amplitude 0.5. *)
Definition f0_5 : float := S754_finite false 8388608 (-24).

(** A stereo buffer of [n] samples, all of value [x]. *)
Definition constant_buffer (n : nat) (x : float) : obs_audio_data :=
  {| data := [repeat x n; repeat x n]; frames := n |}.

(** A muted call delivering [n] samples of value [x] at time [ms]. *)
Definition muted_buffer (n : nat) (x : float) (ms : Z) : buffer_in :=
  {| in_muted := true; in_audio := constant_buffer n x;
     in_now_ns := ms * 1000000 |}.

(** The same for a source that is not muted. *)
Definition unmuted_buffer (n : nat) (x : float) (ms : Z) : buffer_in :=
  {| in_muted := false; in_audio := constant_buffer n x;
     in_now_ns := ms * 1000000 |}.

(** The sample filter after a trigger at time 0: its gate is open,
    [file_length] is 1000 ms and the cooldown 1500 ms. *)
Definition triggered_filter : muted_data :=
  set_last_play_time (filter_loop sample_filter (constant_buffer 3 f0_5)) 0.

(** ** Frame of the sample loop *)

(** The fields that neither the sample loop nor the trigger writes. *)
Definition same_config (a b : muted_data) : Prop :=
  file_path b = file_path a /\ device b = device a /\
  ma_initialized b = ma_initialized a /\ ma_decoder_st b = ma_decoder_st a /\
  sample_rate_i b = sample_rate_i a /\ channels b = channels a /\
  open_threshold b = open_threshold a /\ close_threshold b = close_threshold a /\
  decay_rate b = decay_rate a /\ attack_rate b = attack_rate a /\
  release_rate b = release_rate a /\ hold_time b = hold_time a /\
  cooldown b = cooldown a /\ file_length b = file_length a /\
  audio_indicator b = audio_indicator a /\
  visual_indicator b = visual_indicator a /\
  indicator_size b = indicator_size a.

Ltac step_cases :=
  unfold sample_step, update_attenuation, update_level, gate_close, gate_open;
  repeat match goal with
         | |- context [if ?b then _ else _] => destruct b eqn:?; simpl in *
         end;
  simpl in *.

(** ** Predicates on [float] used by the invariants *)

(** The sign bit is clear, or the datum is a NaN. *)
Definition possign (x : float) : bool :=
  match x with
  | S754_zero s | S754_infinity s | S754_finite s _ _ => negb s
  | S754_nan => true
  end.

(** Zero, or a positive finite number whose value [m * 2 ^ e] is at
    most 1. *)
Definition att_ok (x : float) : Prop :=
  match x with
  | S754_zero false => True
  | S754_finite false m e => Z.pos m <= 2 ^ (- e)
  | _ => False
  end.

(** The values [fmaxf (0, y)] maps into the interval: those that are not
    above 0, and those of the interval. *)
Definition below_or_ok (y : float) : Prop :=
  match y with
  | S754_finite false m e => Z.pos m <= 2 ^ (- e)
  | S754_infinity false => False
  | _ => True
  end.


(** The invariant of the attenuation: the rates are not negative and the
    attenuation is in the interval. *)
Definition att_inv (ng : muted_data) : Prop :=
  possign (attack_rate ng) = true /\
  possign (release_rate ng) = true /\
  att_ok (attenuation ng).

Ltac update_cases :=
  unfold muted_update, open_device, free_device, load_wav, free_wav, differs;
  simpl;
  repeat match goal with
         | |- context [match ?x with _ => _ end] =>
             lazymatch x with
             | context [match _ with _ => _ end] => fail
             | _ => destruct x eqn:?; simpl
             end
         end.

(** ** Further definitions: the order on [float], the level of a sample *)

(** Zeros and finite numbers, the data that have a value. *)
Definition is_real (x : float) : bool :=
  match x with
  | S754_zero _ | S754_finite _ _ _ => true
  | _ => false
  end.

Definition is_nan (x : float) : bool :=
  match x with
  | S754_nan => true
  | _ => false
  end.

(** The value of a zero or finite number in units of [2 ^ k]. *)
Definition num (k : Z) (x : float) : Z :=
  match x with
  | S754_finite s m e => F32.scaled s m e k
  | _ => 0
  end.

Definition expo (x : float) : Z :=
  match x with
  | S754_finite _ _ e => e
  | _ => 0
  end.

Definition lowexp (k : Z) (x : float) : Prop :=
  match x with
  | S754_finite _ _ e => k <= e
  | _ => True
  end.

(** The absolute values the loop over the channels meets for sample [i]:
    channel 0 first, then the channels 0 to [nchannels - 1]. *)
Definition channel_levels (nchannels : nat) (audio : obs_audio_data) (i : nat)
  : list float :=
  F32.fabsf (adata audio 0 i)
    :: map (fun j => F32.fabsf (adata audio j i)) (seq 0 nchannels).

(** The invariant of the loop over the channels: the running maximum is
    one of the values met so far, it is below none of them, and it is a
    NaN only if all of them are. *)
Definition peak_of (cur : float) (seen : list float) : Prop :=
  In cur seen /\
  Forall (fun a => F32.lt cur a = false) seen /\
  (is_nan cur = true -> Forall (fun a => is_nan a = true) seen).

(** ** Further definitions: runs and lifetimes *)

(** All the samples of a run of calls, in order: the levels the loop meets
    in the calls made while the source is muted. *)
Definition run_levels (nchannels : nat) (ins : list buffer_in) : list float :=
  flat_map (fun b => if in_muted b then sample_levels nchannels (in_audio b) else [])
           ins.

(** The times (in ms) at which the calls of a run fire. *)
Fixpoint fire_times (ng : muted_data) (ins : list buffer_in) : list Z :=
  match ins with
  | [] => []
  | b :: rest =>
      let r := filter_call ng b in
      (if fr_fired r then [time_ms (in_now_ns b)] else [])
        ++ fire_times (fr_state r) rest
  end.

(** Successive times, starting from [t], are more than [w] apart on
    [uint64_t]. *)
Fixpoint spaced (w : Z) (t : Z) (l : list Z) : Prop :=
  match l with
  | [] => True
  | t' :: rest => w < wrap64 (t' - t) /\ spaced w t' rest
  end.

(** What the host may do with a filter: change its settings (the backend
    may answer differently each time) or deliver a buffer. *)
Inductive event :=
| ev_update (h : host) (s : obs_data)
| ev_audio (b : buffer_in).

Definition do_event (db_to_mul : float -> float) (ng : muted_data) (ev : event)
  : muted_data :=
  match ev with
  | ev_update h s => muted_update db_to_mul h ng s
  | ev_audio b => fr_state (filter_call ng b)
  end.

(** The state of a filter created with [settings] after the events
    [evs]. *)
Definition lifetime (db_to_mul : float -> float) (h : host) (backend_ok : bool)
    (settings : obs_data) (evs : list event) : muted_data :=
  fold_left (do_event db_to_mul) evs (muted_create db_to_mul h backend_ok settings).

(** The decoder is initialised exactly when a clip path is recorded. *)
Definition clip_consistent (ng : muted_data) : Prop :=
  file_path ng = None <-> ma_decoder_st ng = None.

(** ** Further definitions: the two halves of [muted_update] *)

(** Whether [open_device] can open the device of that name. *)
Definition device_available (h : host) (name : string) : bool :=
  match ma_context_get_devices h with
  | Some devices => existsb (String.eqb name) devices && ma_device_init h name
  | None => false
  end.

(** The first half of [muted_update]: the settings are converted and the
    gate is reset; the clip, the device and the time of the last trigger
    are kept. *)
Definition configure (db_to_mul : float -> float) (h : host) (ng : muted_data)
    (s : obs_data) : muted_data :=
  let sample_rate := F32.of_int (audio_output_get_sample_rate h) in
  let open_t := db_to_mul (F32.of_double (s_open_threshold s)) in
  let close_t := db_to_mul (F32.of_double (s_close_threshold s)) in
  {| file_path := file_path ng;
     device := device ng;
     ma_initialized := ma_initialized ng;
     ma_decoder_st := ma_decoder_st ng;
     sample_rate_i := F32.div (F32.of_int 1) sample_rate;
     channels := audio_output_get_channels h;
     open_threshold := open_t;
     close_threshold := close_t;
     decay_rate :=
       F32.div (F32.sub open_t close_t)
         (F32.mul (F32.div (F32.of_int 1) (F32.of_int 75)) sample_rate);
     attack_rate :=
       F32.div (F32.of_int 1)
         (F32.mul (ms_to_secf (to_int (s_attack_time s))) sample_rate);
     release_rate :=
       F32.div (F32.of_int 1)
         (F32.mul (ms_to_secf (to_int (s_release_time s))) sample_rate);
     hold_time := ms_to_secf (to_int (s_hold_time s));
     is_open := false;
     attenuation := F32.zero;
     level := F32.zero;
     held_time := F32.zero;
     cooldown := wrap64 (to_int (s_cooldown s));
     last_play_time := last_play_time ng;
     file_length := file_length ng;
     audio_indicator := s_audio_indicator s;
     visual_indicator := s_visual_indicator s;
     indicator_size := to_int (s_visual_indicator_size s) |}.

(** The second half of [muted_update]: the clip and the device are
    loaded again when their names differ from the ones held. *)
Definition reload (h : host) (s : obs_data) (ng1 : muted_data) : muted_data :=
  let ng2 :=
    if differs (s_file s) (file_path ng1) then
      open_device h (free_device (load_wav h (free_wav ng1) (s_file s))) (s_device s)
    else ng1 in
  if differs (s_device s) (device ng2) then
    open_device h (free_device ng2) (s_device s)
  else ng2.

(** A state with other clip and device fields. *)
Definition with_clip (ng : muted_data) (fp dv : option string)
    (dec : option ma_decoder) (fl : Z) : muted_data :=
  set_file_path (set_device (set_ma_decoder (set_file_length ng fl) dec) dv) fp.

(** [populate_list]: the (name, value) items of the device list of the
    properties, one per playback device, none when the enumeration
    fails. *)
Definition populate_list (h : host) : list (string * string) :=
  match ma_context_get_devices h with
  | Some devices => map (fun name => (name, name)) devices
  | None => []
  end.

(** ** Further definitions: the visual indicator ([indicator.cpp]) *)

(** [class OverlayWidget]: its members, whether the widget is visible and
    its fixed size.  The position on the screen is Qt's and is left out. *)
Record OverlayWidget := {
  m_want_show : bool;
  m_timeout_ms : Z;
  m_indicator_size : Z;
  m_start_time : Z;
  visible : bool;
  fixed_size : Z
}.

(** The constructor. *)
Definition new_OverlayWidget : OverlayWidget :=
  {| m_want_show := false; m_timeout_ms := 0; m_indicator_size := 0;
     m_start_time := 0; visible := false; fixed_size := 50 |}.

Definition queue_show (w : OverlayWidget) (timeout size : Z) : OverlayWidget :=
  {| m_want_show := true; m_timeout_ms := timeout; m_indicator_size := size;
     m_start_time := m_start_time w; visible := visible w;
     fixed_size := fixed_size w |}.

(** [tick]; [now_show] and [now_hide] are what
    [QDateTime::currentMSecsSinceEpoch ()] returns in the first and in the
    second test.  The difference of the times is taken on [uint64_t]. *)
Definition tick (w : OverlayWidget) (now_show now_hide : Z) : OverlayWidget :=
  let w1 :=
    if m_want_show w then
      {| m_want_show := false; m_timeout_ms := m_timeout_ms w;
         m_indicator_size := m_indicator_size w;
         m_start_time := wrap64 now_show; visible := true;
         fixed_size := m_indicator_size w |}
    else w in
  if 0 <? m_timeout_ms w1 then
    if m_timeout_ms w1 <? wrap64 (wrap64 now_hide - m_start_time w1) then
      {| m_want_show := m_want_show w1; m_timeout_ms := 0;
         m_indicator_size := m_indicator_size w1;
         m_start_time := m_start_time w1; visible := false;
         fixed_size := fixed_size w1 |}
    else w1
  else w1.

(** The timer: successive ticks, each with its two clock readings. *)
Definition ticks (w : OverlayWidget) (clock : list (Z * Z)) : OverlayWidget :=
  fold_left (fun w t => tick w (fst t) (snd t)) clock w.

(** [indicator_init] and [indicator_show] on the global [overlay]; the
    overlay exists when OBS has a main window. *)
Definition indicator_init (main_window : bool) : option OverlayWidget :=
  if main_window then Some new_OverlayWidget else None.

Definition indicator_show_overlay (overlay : option OverlayWidget)
    (timeout_ms indicator_size : Z) : option OverlayWidget :=
  match overlay with
  | Some w => Some (queue_show w timeout_ms indicator_size)
  | None => None
  end.

(** The first argument [muted_filter_audio] passes to [indicator_show]
    for a cooldown of [c] ms. *)
Definition flash_timeout (c : Z) : Z :=
  to_int (F32.trunc (F32.mul (F32.of_int c) f0_7)).

(** The flash asked for is [7 * c / 10] ms for the [n] cooldowns from
    [c] on. *)
Fixpoint flash_timeout_from (n : nat) (c : Z) : bool :=
  match n with
  | O => true
  | S k => (flash_timeout c =? 7 * c / 10) && flash_timeout_from k (c + 1)
  end.

(** ** Further definitions: the playback callback *)

(** [ma_uint32] *)
Definition wrap32 (z : Z) : Z := z mod 2 ^ 32.

(** The results of miniaudio the callback tells apart: success, the end
    of the clip, anything else. *)
Inductive ma_result := MA_SUCCESS | MA_AT_END | MA_ERROR.

(** What a call of [playback_cb] leaves: the decoder, the frames still
    wanted, the sizes of the chunks read, whether an error was logged. *)
Record playback_end (decoder : Type) := {
  pb_decoder : decoder;
  pb_frame_count : Z;
  pb_reads : list Z;
  pb_error_logged : bool
}.

Arguments pb_decoder {decoder}.
Arguments pb_frame_count {decoder}.
Arguments pb_reads {decoder}.
Arguments pb_error_logged {decoder}.

Section Playback.

(** The state of a [ma_decoder] and [ma_decoder_read_pcm_frames]: the
    result, the number of frames stored in [read], the decoder after the
    call. *)
Variable decoder : Type.
Variable ma_decoder_read_pcm_frames : decoder -> Z -> ma_result * Z * decoder.

(** [playback_cb]: the [while] loop, [fuel] bounding its iterations. *)
Fixpoint playback_cb (fuel : nat) (dec : decoder) (frame_count : Z)
  : option (playback_end decoder) :=
  match fuel with
  | O => None
  | S fuel' =>
      if 0 <? frame_count then
        let '(res, read, dec') := ma_decoder_read_pcm_frames dec frame_count in
        match res with
        | MA_SUCCESS =>
            match playback_cb fuel' dec' (wrap32 (frame_count - wrap32 read)) with
            | Some r =>
                Some {| pb_decoder := pb_decoder r;
                        pb_frame_count := pb_frame_count r;
                        pb_reads := read :: pb_reads r;
                        pb_error_logged := pb_error_logged r |}
            | None => None
            end
        | MA_AT_END =>
            Some {| pb_decoder := dec'; pb_frame_count := frame_count;
                    pb_reads := []; pb_error_logged := false |}
        | MA_ERROR =>
            Some {| pb_decoder := dec'; pb_frame_count := frame_count;
                    pb_reads := []; pb_error_logged := true |}
        end
      else
        Some {| pb_decoder := dec; pb_frame_count := frame_count;
                pb_reads := []; pb_error_logged := false |}
  end.

(** A decoder that delivers at least one frame and at most the frames
    asked for whenever it reports success. *)
Definition delivers_frames : Prop :=
  forall dec n,
    0 < n ->
    fst (fst (ma_decoder_read_pcm_frames dec n)) = MA_SUCCESS ->
    0 < snd (fst (ma_decoder_read_pcm_frames dec n)) <= n.

End Playback.

(** ** Further sample data *)

(** A decoder over a clip of [clip_frames] frames: its state is the read
    cursor. *)
Definition cursor_read (clip_frames : Z) (cursor n : Z) : ma_result * Z * Z :=
  if cursor <? clip_frames
  then (MA_SUCCESS, Z.min n (clip_frames - cursor),
        cursor + Z.min n (clip_frames - cursor))
  else (MA_AT_END, 0, cursor).

(** The default settings with another clip, device, attack time or
    release time. *)
Definition settings_with_file (path : string) : obs_data :=
  {| s_file := path;
     s_device := s_device default_settings;
     s_open_threshold := s_open_threshold default_settings;
     s_close_threshold := s_close_threshold default_settings;
     s_attack_time := s_attack_time default_settings;
     s_hold_time := s_hold_time default_settings;
     s_release_time := s_release_time default_settings;
     s_cooldown := s_cooldown default_settings;
     s_audio_indicator := s_audio_indicator default_settings;
     s_visual_indicator := s_visual_indicator default_settings;
     s_visual_indicator_size := s_visual_indicator_size default_settings |}.

Definition settings_with_device (name : string) : obs_data :=
  {| s_file := s_file default_settings;
     s_device := name;
     s_open_threshold := s_open_threshold default_settings;
     s_close_threshold := s_close_threshold default_settings;
     s_attack_time := s_attack_time default_settings;
     s_hold_time := s_hold_time default_settings;
     s_release_time := s_release_time default_settings;
     s_cooldown := s_cooldown default_settings;
     s_audio_indicator := s_audio_indicator default_settings;
     s_visual_indicator := s_visual_indicator default_settings;
     s_visual_indicator_size := s_visual_indicator_size default_settings |}.

Definition settings_with_times (attack release : Z) : obs_data :=
  {| s_file := s_file default_settings;
     s_device := s_device default_settings;
     s_open_threshold := s_open_threshold default_settings;
     s_close_threshold := s_close_threshold default_settings;
     s_attack_time := attack;
     s_hold_time := s_hold_time default_settings;
     s_release_time := release;
     s_cooldown := s_cooldown default_settings;
     s_audio_indicator := s_audio_indicator default_settings;
     s_visual_indicator := s_visual_indicator default_settings;
     s_visual_indicator_size := s_visual_indicator_size default_settings |}.


Definition settings_with_envelope (attack hold release : Z) : obs_data :=
  {| s_file := s_file default_settings;
     s_device := s_device default_settings;
     s_open_threshold := s_open_threshold default_settings;
     s_close_threshold := s_close_threshold default_settings;
     s_attack_time := attack;
     s_hold_time := hold;
     s_release_time := release;
     s_cooldown := s_cooldown default_settings;
     s_audio_indicator := s_audio_indicator default_settings;
     s_visual_indicator := s_visual_indicator default_settings;
     s_visual_indicator_size := s_visual_indicator_size default_settings |}.


(** Amplitude 0.0625, above the default open threshold. *)
Definition f0_0625 : float := S754_finite false 8388608 (-27).

(** The sample filter with both indicators switched off. *)
Definition silent_filter : muted_data :=
  {| file_path := file_path sample_filter; device := device sample_filter;
     ma_initialized := ma_initialized sample_filter;
     ma_decoder_st := ma_decoder_st sample_filter;
     sample_rate_i := sample_rate_i sample_filter;
     channels := channels sample_filter;
     open_threshold := open_threshold sample_filter;
     close_threshold := close_threshold sample_filter;
     decay_rate := decay_rate sample_filter;
     attack_rate := attack_rate sample_filter;
     release_rate := release_rate sample_filter;
     hold_time := hold_time sample_filter;
     is_open := is_open sample_filter;
     attenuation := attenuation sample_filter;
     level := level sample_filter;
     held_time := held_time sample_filter;
     cooldown := cooldown sample_filter;
     last_play_time := last_play_time sample_filter;
     file_length := file_length sample_filter;
     audio_indicator := false;
     visual_indicator := false;
     indicator_size := indicator_size sample_filter |}.

(** ** Order on [float] *)

Lemma compare_swap (x y : float) :
  F32.compare y x = option_map CompOpp (F32.compare x y).
Proof.
  unfold F32.compare.
  destruct x as [sx | sx | | sx mx ex], y as [sy | sy | | sy my ey];
    simpl; try reflexivity;
    try (destruct sx; reflexivity); try (destruct sy; reflexivity);
    try (destruct sx, sy; reflexivity).
  rewrite (Z.min_comm ey ex). f_equal. apply Z.compare_antisym.
Qed.

Lemma le_not_gt (x y : float) : F32.le x y = true -> F32.gt x y = false.
Proof.
  unfold F32.le, F32.gt, F32.lt. rewrite (compare_swap x y).
  destruct (F32.compare x y) as [[ | | ] | ]; simpl; congruence.
Qed.

Lemma le_not_lt (x y : float) : F32.le x y = true -> F32.lt y x = false.
Proof. exact (le_not_gt x y). Qed.

(** ** Comparison on valid data *)

Lemma digits2_pos_range p :
  2 ^ (Z.pos (digits2_pos p) - 1) <= Z.pos p < 2 ^ Z.pos (digits2_pos p).
Proof.
  induction p as [p IH | p IH | ]; simpl digits2_pos.
  - rewrite Pos2Z.inj_succ.
    replace (Z.succ (Z.pos (digits2_pos p)) - 1) with (Z.succ (Z.pos (digits2_pos p) - 1)) by lia.
    rewrite !Z.pow_succ_r by lia. lia.
  - rewrite Pos2Z.inj_succ.
    replace (Z.succ (Z.pos (digits2_pos p)) - 1) with (Z.succ (Z.pos (digits2_pos p) - 1)) by lia.
    rewrite !Z.pow_succ_r by lia. lia.
  - simpl. lia.
Qed.

(** A canonical significand has at most 24 digits, and exactly 24 above
    the smallest exponent. *)
Lemma canonical_range m e :
  canonical_mantissa F32.prec F32.emax m e = true ->
  -149 <= e /\ Z.pos m < 2 ^ 24 /\ (-149 < e -> 2 ^ 23 <= Z.pos m).
Proof.
  unfold canonical_mantissa, fexp, emin, F32.prec, F32.emax.
  intros H. apply Z.eqb_eq in H.
  pose proof (digits2_pos_range m) as [Hlo Hhi].
  split; [lia | split].
  - assert (Z.pos (digits2_pos m) <= 24) by lia.
    apply Z.lt_le_trans with (1 := Hhi). apply Z.pow_le_mono_r; lia.
  - intros He. assert (Z.pos (digits2_pos m) = 24) by lia.
    replace 23 with (Z.pos (digits2_pos m) - 1) by lia. exact Hlo.
Qed.

Lemma scaled_compare_canonical mx ex my ey :
  canonical_mantissa F32.prec F32.emax mx ex = true ->
  canonical_mantissa F32.prec F32.emax my ey = true ->
  (Z.pos mx * 2 ^ (ex - Z.min ex ey) ?= Z.pos my * 2 ^ (ey - Z.min ex ey)) =
    match ex ?= ey with
    | Lt => Lt
    | Gt => Gt
    | Eq => Pos.compare_cont Eq mx my
    end.
Proof.
  intros Hx Hy.
  destruct (canonical_range mx ex Hx) as (Hx1 & Hx2 & Hx3).
  destruct (canonical_range my ey Hy) as (Hy1 & Hy2 & Hy3).
  destruct (Z.compare_spec ex ey) as [E | L | G].
  - subst ey. rewrite Z.min_id, Z.sub_diag. simpl. rewrite !Pos.mul_1_r. reflexivity.
  - rewrite Z.min_l by lia. rewrite Z.sub_diag, Z.mul_1_r.
    apply Z.compare_lt_iff.
    assert (2 ^ 1 <= 2 ^ (ey - ex)) by (apply Z.pow_le_mono_r; lia).
    specialize (Hy3 ltac:(lia)).
    change (2 ^ 24) with 16777216 in *. change (2 ^ 23) with 8388608 in *.
    change (2 ^ 1) with 2 in *. nia.
  - rewrite Z.min_r by lia. rewrite Z.sub_diag, Z.mul_1_r.
    apply Z.compare_gt_iff.
    assert (2 ^ 1 <= 2 ^ (ex - ey)) by (apply Z.pow_le_mono_r; lia).
    specialize (Hx3 ltac:(lia)).
    change (2 ^ 24) with 16777216 in *. change (2 ^ 23) with 8388608 in *.
    change (2 ^ 1) with 2 in *. nia.
Qed.

(** On valid binary32 data the comparison by value is the comparison of
    the standard library. *)
Lemma compare_valid x y :
  valid_binary F32.prec F32.emax x = true ->
  valid_binary F32.prec F32.emax y = true ->
  F32.compare x y = SFcompare x y.
Proof.
  unfold F32.compare.
  destruct x as [sx | sx | | sx mx ex], y as [sy | sy | | sy my ey];
    simpl; intros Hx Hy; try reflexivity;
    try (destruct sx, sy; reflexivity).
  apply andb_true_iff in Hx, Hy. destruct Hx as [Hx _]. destruct Hy as [Hy _].
  f_equal. unfold F32.scaled.
  pose proof (scaled_compare_canonical mx ex my ey Hx Hy) as H.
  assert (0 < 2 ^ (ex - Z.min ex ey)) by (apply Z.pow_pos_nonneg; lia).
  assert (0 < 2 ^ (ey - Z.min ex ey)) by (apply Z.pow_pos_nonneg; lia).
  destruct sx, sy; unfold cond_Zopp.
  - rewrite !Z.mul_opp_l, Z.compare_opp, Z.compare_antisym, H.
    destruct (ex ?= ey); reflexivity.
  - apply Z.compare_lt_iff. nia.
  - apply Z.compare_gt_iff. nia.
  - exact H.
Qed.

(** ** Rounding *)

Lemma digits2_pos_bound p : forall k, Z.pos p < 2 ^ k -> Z.pos (digits2_pos p) <= k.
Proof.
  induction p as [p IH | p IH | ]; intros k Hk.
  - assert (0 < k) by (destruct (Z.ltb_spec 0 k); [assumption | ];
      exfalso; destruct k; [simpl in Hk; lia | lia | rewrite Z.pow_neg_r in Hk; lia]).
    replace k with (Z.succ (k - 1)) in Hk by lia.
    rewrite Z.pow_succ_r in Hk by lia.
    specialize (IH (k - 1)). simpl digits2_pos. rewrite Pos2Z.inj_succ.
    assert (Z.pos p < 2 ^ (k - 1)) by lia. lia.
  - assert (0 < k) by (destruct (Z.ltb_spec 0 k); [assumption | ];
      exfalso; destruct k; [simpl in Hk; lia | lia | rewrite Z.pow_neg_r in Hk; lia]).
    replace k with (Z.succ (k - 1)) in Hk by lia.
    rewrite Z.pow_succ_r in Hk by lia.
    specialize (IH (k - 1)). simpl digits2_pos. rewrite Pos2Z.inj_succ.
    assert (Z.pos p < 2 ^ (k - 1)) by lia. lia.
  - simpl. destruct k; [simpl in Hk; lia | lia | rewrite Z.pow_neg_r in Hk; lia].
Qed.

Lemma Zdigits2_bound m k : 0 <= m < 2 ^ k -> Zdigits2 m <= k.
Proof.
  intros [H0 Hk]. destruct m as [ | p | p]; simpl.
  - destruct k; [lia | lia | rewrite Z.pow_neg_r in Hk; lia].
  - apply digits2_pos_bound; assumption.
  - lia.
Qed.

Lemma shr_1_m mrs : 0 <= shr_m mrs -> shr_m (shr_1 mrs) = shr_m mrs / 2.
Proof.
  destruct mrs as [m r s]. simpl. intros H.
  destruct m as [ | [p | p | ] | p]; simpl; try reflexivity; try lia.
  - rewrite Pos2Z.inj_xI. apply Z.div_unique with 1; lia.
  - rewrite Pos2Z.inj_xO. apply Z.div_unique with 0; lia.
Qed.

Lemma shr_1_nonneg mrs : 0 <= shr_m mrs -> 0 <= shr_m (shr_1 mrs).
Proof. intros H. rewrite shr_1_m by assumption. apply Z.div_pos; lia. Qed.

Lemma iter_shr_m n : forall mrs,
  0 <= shr_m mrs ->
  shr_m (iter_pos shr_1 n mrs) = shr_m mrs / 2 ^ Z.pos n /\
  0 <= shr_m (iter_pos shr_1 n mrs).
Proof.
  induction n as [n IH | n IH | ]; intros mrs H; simpl iter_pos.
  - pose proof (shr_1_nonneg mrs H) as H1.
    destruct (IH _ H1) as [E2 H2]. destruct (IH _ H2) as [E3 H3].
    split; [ | exact H3].
    rewrite E3, E2, shr_1_m by assumption.
    rewrite !Z.div_div by lia. f_equal.
    replace (Z.pos n~1) with (1 + Z.pos n + Z.pos n) by lia.
    rewrite !Z.pow_add_r by lia. lia.
  - destruct (IH _ H) as [E2 H2]. destruct (IH _ H2) as [E3 H3].
    split; [ | exact H3].
    rewrite E3, E2. rewrite !Z.div_div by lia. f_equal.
    replace (Z.pos n~0) with (Z.pos n + Z.pos n) by lia.
    rewrite !Z.pow_add_r by lia. lia.
  - split; [rewrite shr_1_m by assumption; reflexivity | apply shr_1_nonneg; assumption].
Qed.

Lemma shr_record_of_loc_m m l : shr_m (shr_record_of_loc m l) = m.
Proof. destruct l as [ | [ | | ]]; reflexivity. Qed.

(** What [shr_fexp] does to the significand and the exponent. *)
Lemma shr_fexp_cases m e l :
  0 <= m ->
  let '(mrs, e') := shr_fexp F32.prec F32.emax m e l in
  0 <= shr_m mrs /\
  ((e' = e /\ shr_m mrs = m /\ fexp F32.prec F32.emax (Zdigits2 m + e) <= e) \/
   (e < e' /\ e' = fexp F32.prec F32.emax (Zdigits2 m + e) /\
    shr_m mrs = m / 2 ^ (e' - e))).
Proof.
  intros Hm. unfold shr_fexp, shr.
  destruct (fexp F32.prec F32.emax (Zdigits2 m + e) - e) as [ | n | n] eqn:En.
  - rewrite shr_record_of_loc_m. split; [exact Hm | left]. repeat split. lia.
  - destruct (iter_shr_m n (shr_record_of_loc m l)) as [E H];
      [rewrite shr_record_of_loc_m; exact Hm | ].
    rewrite shr_record_of_loc_m in E.
    split; [exact H | right].
    split; [lia | split; [lia | ]].
    rewrite E. f_equal. f_equal. lia.
  - rewrite shr_record_of_loc_m. split; [exact Hm | left]. repeat split. lia.
Qed.

Lemma round_nearest_even_cases m l :
  round_nearest_even m l = m \/ round_nearest_even m l = m + 1.
Proof.
  destruct l as [ | [ | | ]]; simpl; auto.
  destruct (Z.even m); auto.
Qed.

Lemma fexp_le_of_digits d e k :
  d + e <= k -> -149 <= k - 24 -> fexp F32.prec F32.emax (d + e) <= k - 24.
Proof. unfold fexp, emin, F32.prec, F32.emax. lia. Qed.

(** Rounding a value below 1 gives at most 1. *)
Lemma binary_round_aux_below_one m e l :
  0 <= m < 2 ^ (- e) ->
  match binary_round_aux F32.prec F32.emax false m e l with
  | S754_zero s => s = false
  | S754_finite s m' e' => s = false /\ Z.pos m' <= 2 ^ (- e')
  | S754_infinity _ => False
  | S754_nan => True
  end.
Proof.
  intros [H0 Hlt].
  assert (He : e <= 0).
  { destruct (Z.leb_spec e 0); [assumption | ].
    rewrite Z.pow_neg_r in Hlt by lia. lia. }
  unfold binary_round_aux.
  pose proof (shr_fexp_cases m e l H0) as H1.
  destruct (shr_fexp F32.prec F32.emax m e l) as [mrs1 e1].
  destruct H1 as [Hn1 H1].
  assert (B1 : shr_m mrs1 < 2 ^ (- e1) /\ e1 <= 0).
  { destruct H1 as [(-> & -> & _) | (Hlt1 & E1 & ->)]; [split; assumption | ].
    assert (He1 : e1 <= -24).
    { rewrite E1. replace (-24) with (0 - 24) by lia.
      apply fexp_le_of_digits; [ | lia].
      pose proof (Zdigits2_bound m (- e) (conj H0 Hlt)). lia. }
    split; [ | lia].
    apply Z.div_lt_upper_bound; [apply Z.pow_pos_nonneg; lia | ].
    rewrite <- Z.pow_add_r by lia.
    replace (e1 - e + - e1) with (- e) by lia. exact Hlt. }
  destruct B1 as [B1 He1].
  set (m2 := round_nearest_even (shr_m mrs1) (loc_of_shr_record mrs1)).
  assert (B2 : 0 <= m2 <= 2 ^ (- e1)).
  { subst m2.
    destruct (round_nearest_even_cases (shr_m mrs1) (loc_of_shr_record mrs1)) as [-> | ->]; lia. }
  pose proof (shr_fexp_cases m2 e1 loc_Exact (proj1 B2)) as H2.
  destruct (shr_fexp F32.prec F32.emax m2 e1 loc_Exact) as [mrs2 e2].
  destruct H2 as [Hn2 H2].
  assert (B3 : shr_m mrs2 <= 2 ^ (- e2) /\ e2 <= 0).
  { destruct H2 as [(-> & -> & _) | (Hlt2 & E2 & ->)]; [split; [lia | assumption] | ].
    assert (He2 : e2 <= -23).
    { rewrite E2. replace (-23) with (1 - 24) by lia.
      apply fexp_le_of_digits; [ | lia].
      assert (Zdigits2 m2 <= - e1 + 1); [ | lia].
      apply Zdigits2_bound. split; [lia | ].
      rewrite Z.pow_add_r by lia. lia. }
    split; [ | lia].
    apply Z.div_le_upper_bound; [apply Z.pow_pos_nonneg; lia | ].
    rewrite <- Z.pow_add_r by lia.
    replace (e2 - e1 + - e2) with (- e1) by lia. lia. }
  destruct B3 as [B3 He2].
  destruct (shr_m mrs2) as [ | p | p]; [reflexivity | | exact I].
  destruct (Z.leb_spec e2 (F32.emax - F32.prec)) as [ _ | Hbig].
  - split; [reflexivity | exact B3].
  - unfold F32.emax, F32.prec in Hbig. lia.
Qed.

Lemma iter_xO_value d p : Z.pos (Pos.iter xO p d) = Z.pos p * 2 ^ Z.pos d.
Proof.
  change (Pos.iter xO p d) with (shift_pos d p).
  rewrite shift_pos_correct, Zpower_pos_nat, Zpower_nat_Z, positive_nat_Z.
  apply Z.mul_comm.
Qed.

(** [shl_align] toward a smaller exponent keeps the value. *)
Lemma shl_align_value p e e' :
  e' <= e ->
  let '(p', e2) := shl_align p e e' in
  e2 = e' /\ Z.pos p' = Z.pos p * 2 ^ (e - e').
Proof.
  intros He. unfold shl_align.
  destruct (e' - e) as [ | d | d] eqn:Ed; try lia.
  - split; [lia | ]. replace (e - e') with 0 by lia. simpl. lia.
  - split; [reflexivity | ]. rewrite iter_xO_value. f_equal. f_equal. lia.
Qed.

(** [shl_align] in general: the exponent does not grow and the value is
    kept. *)
Lemma shl_align_cases p e e' :
  let '(p', e2) := shl_align p e e' in
  e2 <= e /\ Z.pos p' = Z.pos p * 2 ^ (e - e2).
Proof.
  unfold shl_align.
  destruct (e' - e) as [ | d | d] eqn:Ed.
  - split; [lia | ]. rewrite Z.sub_diag. simpl. lia.
  - split; [lia | ]. rewrite Z.sub_diag. simpl. lia.
  - split; [lia | ]. rewrite iter_xO_value. f_equal. f_equal. lia.
Qed.

Lemma binary_round_below_one p e :
  Z.pos p < 2 ^ (- e) ->
  match binary_round F32.prec F32.emax false p e with
  | S754_zero s => s = false
  | S754_finite s m' e' => s = false /\ Z.pos m' <= 2 ^ (- e')
  | S754_infinity _ => False
  | S754_nan => True
  end.
Proof.
  intros Hlt.
  assert (He : e <= 0).
  { destruct (Z.leb_spec e 0); [assumption | ].
    rewrite Z.pow_neg_r in Hlt by lia. lia. }
  unfold binary_round.
  pose proof (shl_align_cases p e (fexp F32.prec F32.emax (Z.pos (digits2_pos p) + e))) as H.
  destruct (shl_align p e _) as [p' e2]. destruct H as [He2 Hv].
  apply binary_round_aux_below_one. split; [lia | ].
  rewrite Hv. replace (- e2) with (- e + (e - e2)) by lia.
  rewrite Z.pow_add_r by lia.
  apply Z.mul_lt_mono_pos_r; [apply Z.pow_pos_nonneg; lia | exact Hlt].
Qed.

(** ** Signs *)

Lemma binary_round_aux_sign s m e l :
  match binary_round_aux F32.prec F32.emax s m e l with
  | S754_zero s' | S754_infinity s' | S754_finite s' _ _ => s' = s
  | S754_nan => True
  end.
Proof.
  unfold binary_round_aux.
  destruct (shr_fexp F32.prec F32.emax m e l) as [mrs1 e1].
  destruct (shr_fexp F32.prec F32.emax _ e1 loc_Exact) as [mrs2 e2].
  destruct (shr_m mrs2); [reflexivity | | exact I].
  destruct (e2 <=? _); reflexivity.
Qed.

Lemma binary_round_sign s p e :
  match binary_round F32.prec F32.emax s p e with
  | S754_zero s' | S754_infinity s' | S754_finite s' _ _ => s' = s
  | S754_nan => True
  end.
Proof.
  unfold binary_round. destruct (shl_align p e _) as [p' e'].
  apply binary_round_aux_sign.
Qed.

Lemma possign_binary_round_aux m e l :
  possign (binary_round_aux F32.prec F32.emax false m e l) = true.
Proof.
  pose proof (binary_round_aux_sign false m e l) as H.
  destruct (binary_round_aux _ _ _ _ _ _); simpl; subst; reflexivity.
Qed.

Lemma possign_binary_round p e :
  possign (binary_round F32.prec F32.emax false p e) = true.
Proof.
  pose proof (binary_round_sign false p e) as H.
  destruct (binary_round _ _ _ _ _); simpl; subst; reflexivity.
Qed.

Lemma possign_of_int z : 0 <= z -> possign (F32.of_int z) = true.
Proof.
  intros Hz. unfold F32.of_int, binary_normalize.
  destruct z as [ | p | p]; [reflexivity | apply possign_binary_round | lia].
Qed.

Lemma possign_div x y :
  possign x = true -> possign y = true -> possign (F32.div x y) = true.
Proof.
  unfold F32.div, SFdiv.
  destruct x as [sx | sx | | sx mx ex], y as [sy | sy | | sy my ey];
    simpl; intros Hx Hy; try reflexivity;
    try (apply negb_true_iff in Hx; apply negb_true_iff in Hy; subst; reflexivity).
  apply negb_true_iff in Hx; apply negb_true_iff in Hy; subst. simpl.
  destruct (SFdiv_core_binary _ _ _ _ _ _) as [[mz ez] lz].
  apply possign_binary_round_aux.
Qed.

Lemma possign_mul x y :
  possign x = true -> possign y = true -> possign (F32.mul x y) = true.
Proof.
  unfold F32.mul, SFmul.
  destruct x as [sx | sx | | sx mx ex], y as [sy | sy | | sy my ey];
    simpl; intros Hx Hy; try reflexivity;
    try (apply negb_true_iff in Hx; apply negb_true_iff in Hy; subst; reflexivity).
  apply negb_true_iff in Hx; apply negb_true_iff in Hy; subst. simpl.
  apply possign_binary_round_aux.
Qed.

Lemma possign_binary_normalize z e :
  0 <= z -> possign (binary_normalize F32.prec F32.emax z e false) = true.
Proof.
  intros Hz. unfold binary_normalize.
  destruct z as [ | p | p]; [reflexivity | apply possign_binary_round | lia].
Qed.

Lemma possign_add x y :
  possign x = true -> possign y = true -> possign (F32.add x y) = true.
Proof.
  unfold F32.add.
  destruct x as [[ | ] | [ | ] | | [ | ] mx ex], y as [[ | ] | [ | ] | | [ | ] my ey];
    intros Hx Hy; try discriminate Hx; try discriminate Hy; try reflexivity.
  unfold SFadd. cbv zeta. apply possign_binary_normalize. simpl cond_Zopp. lia.
Qed.

(** ** The interval [0, 1] *)

Lemma compare_one m e :
  F32.compare (S754_finite false m e) F32.one =
    Some (Z.pos m * 2 ^ (e - Z.min e (-23)) ?= 2 ^ 23 * 2 ^ (-23 - Z.min e (-23))).
Proof. reflexivity. Qed.

Lemma scaled_le_one m e :
  Z.pos m * 2 ^ (e - Z.min e (-23)) <= 2 ^ 23 * 2 ^ (-23 - Z.min e (-23)) <->
  Z.pos m <= 2 ^ (- e).
Proof.
  destruct (Z.leb_spec e (-23)) as [He | He].
  - rewrite Z.min_l by lia. rewrite Z.sub_diag, Z.mul_1_r.
    rewrite <- Z.pow_add_r by lia.
    replace (23 + (-23 - e)) with (- e) by lia. reflexivity.
  - rewrite Z.min_r by lia.
    replace (-23 - -23) with 0 by lia. rewrite Z.mul_1_r.
    replace (e - -23) with (e + 23) by lia.
    destruct (Z.leb_spec e 0) as [He0 | He0].
    + replace (2 ^ 23) with (2 ^ (- e) * 2 ^ (e + 23)).
      * assert (0 < 2 ^ (e + 23)) by (apply Z.pow_pos_nonneg; lia).
        split; intros H1; [apply Z.mul_le_mono_pos_r with (2 ^ (e + 23)) | apply Z.mul_le_mono_pos_r]; assumption.
      * rewrite <- Z.pow_add_r by lia. f_equal. lia.
    + rewrite (Z.pow_neg_r 2 (- e)) by lia.
      assert (2 ^ 24 <= 2 ^ (e + 23)) by (apply Z.pow_le_mono_r; lia).
      assert (0 < 2 ^ (e + 23)) by (apply Z.pow_pos_nonneg; lia).
      split; intros H1; [ | lia].
      assert (2 ^ (e + 23) <= Z.pos m * 2 ^ (e + 23)) by nia.
      change (2 ^ 24) with 16777216 in *. change (2 ^ 23) with 8388608 in *. lia.
Qed.

Lemma scaled_lt_one m e :
  Z.pos m * 2 ^ (e - Z.min e (-23)) < 2 ^ 23 * 2 ^ (-23 - Z.min e (-23)) ->
  Z.pos m <= 2 ^ (- e).
Proof. intros H. apply scaled_le_one. lia. Qed.

Lemma att_ok_in_unit x : att_ok x -> F32.in_unit x = true.
Proof.
  destruct x as [[ | ] | [ | ] | | [ | ] m e]; simpl; intros H; try contradiction.
  - reflexivity.
  - unfold F32.in_unit. change (F32.le F32.zero (S754_finite false m e)) with true.
    simpl. unfold F32.le. rewrite compare_one.
    apply scaled_le_one in H. apply Z.compare_le_iff in H.
    destruct (_ ?= _); try reflexivity. contradiction H; reflexivity.
Qed.

Lemma lt_one_att_ok y :
  possign y = true -> F32.lt y F32.one = true -> att_ok y.
Proof.
  destruct y as [[ | ] | [ | ] | | [ | ] m e]; simpl; intros Hs Hlt;
    try discriminate Hs; try discriminate Hlt; try exact I.
  unfold F32.lt in Hlt. rewrite compare_one in Hlt.
  apply scaled_lt_one. apply Z.compare_lt_iff.
  destruct (_ ?= _) eqn:E; try discriminate Hlt. exact E.
Qed.

Lemma att_ok_one : att_ok F32.one.
Proof. simpl. lia. Qed.

(** [fminf (1, y)] for a [y] that is not negative. *)
Lemma fminf_one_att_ok y : possign y = true -> att_ok (F32.fminf F32.one y).
Proof.
  intros Hs. unfold F32.fminf.
  change F32.one with (S754_finite false 8388608 (-23)) at 1.
  cbv iota beta.
  destruct y as [sy | sy | | sy my ey] eqn:Ey; try exact att_ok_one.
  - destruct (F32.lt _ _) eqn:Hlt; [ | exact att_ok_one].
    apply lt_one_att_ok; assumption.
  - destruct (F32.lt _ _) eqn:Hlt; [ | exact att_ok_one].
    apply lt_one_att_ok; assumption.
  - destruct (F32.lt _ _) eqn:Hlt; [ | exact att_ok_one].
    apply lt_one_att_ok; assumption.
Qed.

Lemma fmaxf_zero_att_ok y : below_or_ok y -> att_ok (F32.fmaxf F32.zero y).
Proof.
  destruct y as [[ | ] | [ | ] | | [ | ] m e]; simpl; intros H;
    try contradiction; try exact I; exact H.
Qed.

Lemma sub_below_or_ok att rr :
  att_ok att -> possign rr = true -> below_or_ok (F32.sub att rr).
Proof.
  unfold F32.sub.
  destruct att as [[ | ] | [ | ] | | [ | ] ma ea], rr as [[ | ] | [ | ] | | [ | ] mr er];
    simpl att_ok; intros Ha Hr; try contradiction; try discriminate Hr;
    try exact I; try exact Ha.
  unfold SFsub. cbv zeta. simpl cond_Zopp.
  assert (Hea : ea <= 0).
  { destruct (Z.leb_spec ea 0); [assumption | ].
    rewrite Z.pow_neg_r in Ha by lia. lia. }
  pose proof (shl_align_value ma ea (Z.min ea er) (Z.le_min_l _ _)) as H1.
  destruct (shl_align ma ea (Z.min ea er)) as [ma' e1]. destruct H1 as [_ H1].
  simpl fst.
  assert (Hb : Z.pos ma' <= 2 ^ (- Z.min ea er)).
  { rewrite H1. replace (- Z.min ea er) with (- ea + (ea - Z.min ea er)) by lia.
    rewrite Z.pow_add_r by lia.
    apply Z.mul_le_mono_nonneg_r; [apply Z.pow_nonneg; lia | exact Ha]. }
  destruct (shl_align mr er (Z.min ea er)) as [mr' e2]. simpl fst.
  unfold binary_normalize.
  destruct (Z.pos ma' - Z.pos mr') as [ | p | p] eqn:Ed; [exact I | | ].
  - pose proof (binary_round_below_one p (Z.min ea er)) as H.
    destruct (binary_round F32.prec F32.emax false p (Z.min ea er)) as [s | s | | s m e];
      simpl.
    + exact I.
    + destruct s; [exact I | ]. apply H. lia.
    + exact I.
    + destruct s; [exact I | ]. apply H. lia.
  - pose proof (binary_round_sign true p (Z.min ea er)) as H.
    destruct (binary_round F32.prec F32.emax true p (Z.min ea er)) as [s | s | | s m e];
      simpl; try exact I; subst s; exact I.
Qed.


(** ** The sample loop leaves the configuration alone *)

Lemma same_config_refl a : same_config a a.
Proof. unfold same_config; repeat split. Qed.

Lemma same_config_trans a b c :
  same_config a b -> same_config b c -> same_config a c.
Proof.
  unfold same_config; intros H1 H2.
  repeat match goal with H : _ /\ _ |- _ => destruct H end.
  repeat split; congruence.
Qed.

Lemma sample_step_config ng c : same_config ng (sample_step ng c).
Proof. unfold same_config. step_cases; repeat split. Qed.

Lemma sample_step_last_play_time ng c :
  last_play_time (sample_step ng c) = last_play_time ng.
Proof. step_cases; reflexivity. Qed.

Lemma sample_loop_config levels : forall ng, same_config ng (sample_loop ng levels).
Proof.
  induction levels as [ | c rest IH]; intro ng; simpl.
  - apply same_config_refl.
  - eapply same_config_trans; [apply sample_step_config | apply IH].
Qed.

Lemma sample_loop_last_play_time levels :
  forall ng, last_play_time (sample_loop ng levels) = last_play_time ng.
Proof.
  unfold sample_loop.
  induction levels as [ | c rest IH]; intro ng; simpl; [reflexivity | ].
  rewrite IH. apply sample_step_last_play_time.
Qed.

Lemma refractory_config a b : same_config a b -> refractory b = refractory a.
Proof.
  unfold same_config, refractory; intros H.
  repeat match goal with H : _ /\ _ |- _ => destruct H end. congruence.
Qed.

(** A call that does not fire keeps the configuration and the time of the
    last trigger. *)
Lemma filter_call_config ng b : same_config ng (fr_state (filter_call ng b)).
Proof.
  unfold filter_call, muted_filter_audio.
  destruct (in_muted b); simpl.
  - pose proof (sample_loop_config (sample_levels (channels ng) (in_audio b)) ng) as H.
    fold (filter_loop ng (in_audio b)) in H.
    destruct (trigger_due _ _); simpl; [ | exact H].
    unfold same_config in *.
    repeat match goal with H : _ /\ _ |- _ => destruct H end.
    repeat split; assumption.
  - unfold same_config; simpl; repeat split.
Qed.

Lemma filter_call_quiet ng b :
  fr_fired (filter_call ng b) = false ->
  last_play_time (fr_state (filter_call ng b)) = last_play_time ng /\
  fr_calls (filter_call ng b) = [].
Proof.
  unfold filter_call, muted_filter_audio.
  destruct (in_muted b); simpl.
  - destruct (trigger_due _ _); simpl; [discriminate | ].
    intros _. split; [apply sample_loop_last_play_time | reflexivity].
  - intros _. split; reflexivity.
Qed.

(** ** The gate within one iteration *)

Lemma sample_step_is_open ng c :
  is_open (sample_step ng c) = is_open (gate_close (gate_open ng c)).
Proof. step_cases; reflexivity. Qed.

(** A closed gate that no sample pushes above the open threshold stays
    closed through the loop. *)
Lemma sample_loop_stays_closed levels :
  forall ng,
    is_open ng = false ->
    Forall (fun c => F32.gt c (open_threshold ng) = false) levels ->
    is_open (sample_loop ng levels) = false.
Proof.
  induction levels as [ | c rest IH]; intros ng Hc Hall; simpl; [exact Hc | ].
  inversion Hall as [ | ? ? Hgt Hrest]; subst.
  apply IH.
  - rewrite sample_step_is_open. unfold gate_close, gate_open.
    rewrite Hgt, Hc. simpl. rewrite Hc, andb_false_r. exact Hc.
  - destruct (sample_step_config ng c) as (_ & _ & _ & _ & _ & _ & Ho & _).
    rewrite Ho. exact Hrest.
Qed.

Lemma filter_loop_stays_closed ng audio :
  is_open ng = false ->
  Forall (fun c => F32.gt c (open_threshold ng) = false)
         (sample_levels (channels ng) audio) ->
  is_open (filter_loop ng audio) = false.
Proof. intros; apply sample_loop_stays_closed; assumption. Qed.

(** No trigger without an open gate after the loop, nor within the
    refractory window. *)
Lemma filter_call_closed ng b :
  in_muted b = true ->
  is_open (filter_loop ng (in_audio b)) = false ->
  fr_fired (filter_call ng b) = false /\
  is_open (fr_state (filter_call ng b)) = false.
Proof.
  intros Hm Hc. unfold filter_call, muted_filter_audio, trigger_due.
  rewrite Hm, Hc. simpl. split; [reflexivity | exact Hc].
Qed.

Lemma filter_call_unmuted ng b :
  in_muted b = false ->
  filter_call ng b =
    {| fr_state := set_is_open ng false; fr_fired := false; fr_calls := [] |}.
Proof.
  intros Hm. unfold filter_call, muted_filter_audio. rewrite Hm. reflexivity.
Qed.

Lemma filter_call_within_window ng b :
  elapsed ng (time_ms (in_now_ns b)) <= refractory ng ->
  fr_fired (filter_call ng b) = false.
Proof.
  intros Hw. unfold filter_call, muted_filter_audio.
  destruct (in_muted b); simpl; [ | reflexivity].
  pose proof (sample_loop_config (sample_levels (channels ng) (in_audio b)) ng) as Hc.
  pose proof (sample_loop_last_play_time (sample_levels (channels ng) (in_audio b)) ng) as Hl.
  fold (filter_loop ng (in_audio b)) in Hc, Hl.
  unfold trigger_due.
  rewrite (refractory_config _ _ Hc). unfold elapsed in *. rewrite Hl.
  destruct (Z.ltb_spec (refractory ng) (wrap64 (time_ms (in_now_ns b) - last_play_time ng)));
    [lia | ].
  rewrite andb_false_r. reflexivity.
Qed.

Lemma filter_call_fires ng b :
  in_muted b = true ->
  is_open (filter_loop ng (in_audio b)) = true ->
  refractory ng < elapsed ng (time_ms (in_now_ns b)) ->
  fr_fired (filter_call ng b) = true /\
  last_play_time (fr_state (filter_call ng b)) = time_ms (in_now_ns b) /\
  fr_calls (filter_call ng b) = trigger_calls ng.
Proof.
  intros Hm Ho Hw. unfold filter_call, muted_filter_audio. rewrite Hm. simpl.
  pose proof (sample_loop_config (sample_levels (channels ng) (in_audio b)) ng) as Hc.
  pose proof (sample_loop_last_play_time (sample_levels (channels ng) (in_audio b)) ng) as Hl.
  fold (filter_loop ng (in_audio b)) in Hc, Hl.
  unfold trigger_due. rewrite Ho, (refractory_config _ _ Hc).
  unfold elapsed in *. rewrite Hl.
  destruct (Z.ltb_spec (refractory ng) (wrap64 (time_ms (in_now_ns b) - last_play_time ng)));
    [ | lia].
  simpl. repeat split. unfold trigger_calls. simpl.
  unfold same_config in Hc.
  repeat match goal with H : _ /\ _ |- _ => destruct H end.
  repeat match goal with H : _ = _ |- _ => rewrite H; clear H end.
  reflexivity.
Qed.

(** Through calls that stay within the window nothing fires, and the
    window itself does not move. *)
Lemma run_within_window ins :
  forall ng,
    Forall (fun x => elapsed ng (time_ms (in_now_ns x)) <= refractory ng) ins ->
    Forall (fun r => fr_fired r = false) (run ng ins) /\
    same_config ng (run_state ng ins) /\
    last_play_time (run_state ng ins) = last_play_time ng.
Proof.
  unfold run_state.
  induction ins as [ | b rest IH]; intros ng Hall; simpl.
  - split; [constructor | split; [apply same_config_refl | reflexivity]].
  - inversion Hall as [ | ? ? Hb Hrest]; subst.
    pose proof (filter_call_within_window ng b Hb) as Hq.
    destruct (filter_call_quiet ng b Hq) as [Hl _].
    pose proof (filter_call_config ng b) as Hc.
    destruct (IH (fr_state (filter_call ng b))) as (H1 & H2 & H3).
    + revert Hrest. apply Forall_impl. intros x Hx.
      rewrite (refractory_config _ _ Hc). unfold elapsed in *. rewrite Hl. exact Hx.
    + split; [ | split].
      * constructor; assumption.
      * eapply same_config_trans; eassumption.
      * congruence.
Qed.

(** ** The sample filter at work *)

(** The sample data are valid binary32 numbers. *)
Lemma sample_data_valid :
  Forall (fun x => valid_binary F32.prec F32.emax x = true)
    [f0_5; f0_7; F32.one;
     sample_rate_i sample_filter; open_threshold sample_filter;
     close_threshold sample_filter; decay_rate sample_filter;
     attack_rate sample_filter; release_rate sample_filter;
     hold_time sample_filter].
Proof. repeat constructor. Qed.

(** The first sample of amplitude 0.5 finds the level at 0 and leaves the
    gate closed; the second one opens it. *)
Example first_loud_sample : is_open (sample_step sample_filter f0_5) = false.
Proof. reflexivity. Qed.

Example second_loud_sample :
  is_open (sample_loop sample_filter [f0_5; f0_5]) = true.
Proof. reflexivity. Qed.

(** 100 ms of amplitude 0.5 at 48 kHz on the muted source, ten seconds
    after start: the call fires and asks for a flash of 1050 ms. *)
Example loud_buffer_fires :
  let r := filter_call sample_filter (muted_buffer 4800 f0_5 10000) in
  fr_fired r = true /\ fr_calls r = [indicator_show 1050 45] /\
  last_play_time (fr_state r) = 10000.
Proof. vm_compute. repeat split. Qed.

(** In the ranges of an actual run the two sides of the trigger test are
    the plain difference and the plain sum. *)
Lemma elapsed_no_wrap ng t :
  0 <= last_play_time ng <= t -> t < 2 ^ 64 ->
  elapsed ng t = t - last_play_time ng.
Proof. intros H1 H2. unfold elapsed, wrap64. apply Z.mod_small. lia. Qed.

Lemma refractory_no_wrap ng :
  0 <= file_length ng -> 0 <= cooldown ng ->
  file_length ng + cooldown ng < 2 ^ 64 ->
  refractory ng = file_length ng + cooldown ng.
Proof. intros H1 H2 H3. unfold refractory, wrap64. apply Z.mod_small. lia. Qed.

(** ** The trigger and its refractory window *)

(** Claim C1, as stated, fails at the boundary: with the gate open and the
    source muted, a check made when exactly [file_length + cooldown]
    milliseconds have elapsed since the last trigger does not fire. *)
Lemma trigger_not_due_at_exact_window :
  ~ (forall ng b,
        in_muted b = true ->
        is_open (filter_loop ng (in_audio b)) = true ->
        refractory ng <= elapsed ng (time_ms (in_now_ns b)) ->
        fr_fired (filter_call ng b) = true).
Proof.
  intros H.
  specialize (H triggered_filter (muted_buffer 3 f0_5 2500)).
  vm_compute in H.
  assert (E : false = true) by (apply H; [reflexivity | reflexivity | discriminate]).
  discriminate E.
Qed.

(** Claim C1, amended: from any state, calls made while the time elapsed
    since the last trigger is at most [file_length + cooldown] milliseconds
    fire nothing, and the first call after them that finds the source
    muted, the gate open at the end of its buffer and the elapsed time
    strictly above that sum fires, recording its time. *)
Theorem refractory_window_then_trigger ng ins b :
  Forall (fun x => elapsed ng (time_ms (in_now_ns x)) <= refractory ng) ins ->
  in_muted b = true ->
  is_open (filter_loop (run_state ng ins) (in_audio b)) = true ->
  refractory ng < elapsed ng (time_ms (in_now_ns b)) ->
  Forall (fun r => fr_fired r = false /\ fr_calls r = []) (run ng ins) /\
  fr_fired (filter_call (run_state ng ins) b) = true /\
  last_play_time (fr_state (filter_call (run_state ng ins) b)) =
    time_ms (in_now_ns b) /\
  fr_calls (filter_call (run_state ng ins) b) = trigger_calls ng.
Proof.
  intros Hins Hm Ho Hw.
  destruct (run_within_window ins ng Hins) as (Hq & Hc & Hl).
  split.
  - clear - Hins. revert ng Hins.
    induction ins as [ | x rest IH]; intros ng Hins; simpl; [constructor | ].
    inversion Hins as [ | ? ? Hx Hrest]; subst.
    pose proof (filter_call_within_window ng x Hx) as Hf.
    destruct (filter_call_quiet ng x Hf) as [Hl Hcalls].
    constructor; [split; assumption | ].
    apply IH. revert Hrest. apply Forall_impl. intros y Hy.
    rewrite (refractory_config _ _ (filter_call_config ng x)).
    unfold elapsed in *. rewrite Hl. exact Hy.
  - destruct (filter_call_fires (run_state ng ins) b Hm Ho) as (H1 & H2 & H3).
    + rewrite (refractory_config _ _ Hc). unfold elapsed in *. rewrite Hl. exact Hw.
    + split; [exact H1 | split; [exact H2 | ]].
      rewrite H3. unfold trigger_calls, same_config in *.
      repeat match goal with H : _ /\ _ |- _ => destruct H end.
      repeat match goal with H : _ = _ |- _ => rewrite H; clear H end.
      reflexivity.
Qed.

Lemma refractory_window_then_trigger_witness :
  let ins := [muted_buffer 3 f0_5 100; muted_buffer 3 f0_5 2500] in
  let b := muted_buffer 3 f0_5 2501 in
  Forall (fun r => fr_fired r = false /\ fr_calls r = []) (run triggered_filter ins) /\
  fr_fired (filter_call (run_state triggered_filter ins) b) = true /\
  last_play_time (fr_state (filter_call (run_state triggered_filter ins) b)) = 2501 /\
  fr_calls (filter_call (run_state triggered_filter ins) b) = [indicator_show 1050 45].
Proof.
  intros ins b.
  apply (refractory_window_then_trigger triggered_filter ins b).
  - repeat constructor; vm_compute; discriminate.
  - reflexivity.
  - vm_compute. reflexivity.
  - vm_compute. reflexivity.
Defined.

(** ** Opening and closing of the gate *)

(** After one iteration the gate is open exactly when it was open or the
    sample exceeds the open threshold, and the level carried over is not
    below the close threshold. *)
Lemma sample_step_gate ng c :
  is_open (sample_step ng c) =
    (is_open ng || F32.gt c (open_threshold ng)) &&
    negb (F32.lt (level ng) (close_threshold ng)).
Proof.
  rewrite sample_step_is_open. unfold gate_close, gate_open.
  destruct (is_open ng) eqn:Ho, (F32.gt c (open_threshold ng)) eqn:Hg; simpl;
    rewrite ?Ho; simpl;
    destruct (F32.lt (level ng) (close_threshold ng)); simpl; rewrite ?Ho; reflexivity.
Qed.

(** Claim C3, as stated, fails: on the freshly configured filter (level 0,
    below the close threshold) a sample of amplitude 0.5, above the open
    threshold, leaves the gate closed at the end of its iteration. *)
Lemma loud_sample_may_leave_gate_closed :
  ~ (forall ng audio i,
        is_open ng = false ->
        F32.gt (cur_level_at (channels ng) audio i) (open_threshold ng) = true ->
        is_open (sample_step ng (cur_level_at (channels ng) audio i)) = true).
Proof.
  intros H.
  specialize (H sample_filter (constant_buffer 1 f0_5) 0%nat eq_refl eq_refl).
  vm_compute in H. discriminate H.
Qed.

(** Claim C3, amended: with the gate closed before sample [i], a sample
    whose level exceeds the open threshold leaves the gate open at the end
    of its iteration provided the stored level is not below the close
    threshold; a sample whose level is at or below the open threshold
    leaves the gate closed. *)
Theorem gate_opens_within_one_sample ng audio i :
  let c := cur_level_at (channels ng) audio i in
  is_open ng = false ->
  (F32.gt c (open_threshold ng) = true ->
   F32.lt (level ng) (close_threshold ng) = false ->
   is_open (sample_step ng c) = true) /\
  (F32.le c (open_threshold ng) = true ->
   is_open (sample_step ng c) = false).
Proof.
  intros c Hc. rewrite sample_step_gate, Hc. split.
  - intros Hg Hl. rewrite Hg, Hl. reflexivity.
  - intros Hle. rewrite (le_not_gt _ _ Hle). reflexivity.
Qed.

Lemma gate_opens_within_one_sample_witness :
  let ng := sample_step sample_filter f0_5 in
  is_open ng = false /\
  is_open (sample_step ng (cur_level_at (channels ng) (constant_buffer 1 f0_5) 0)) = true /\
  is_open (sample_step ng (cur_level_at (channels ng) (constant_buffer 1 F32.zero) 0)) = false.
Proof.
  intros ng. split; [reflexivity | split].
  - apply (proj1 (gate_opens_within_one_sample ng (constant_buffer 1 f0_5) 0%nat eq_refl));
      reflexivity.
  - apply (proj2 (gate_opens_within_one_sample ng (constant_buffer 1 F32.zero) 0%nat eq_refl));
      reflexivity.
Defined.

(** Claim C4: within the sample loop an open gate closes only when the
    level carried over from the previous sample is below the close
    threshold, and the close resets the held time to 0; while that level
    is at or above the close threshold the gate stays open whatever the
    sample, in particular for a sample below the close threshold. *)
Theorem gate_closes_only_on_low_level ng c :
  is_open ng = true ->
  (is_open (sample_step ng c) = false ->
   F32.lt (level ng) (close_threshold ng) = true /\
   held_time (gate_close (gate_open ng c)) = F32.zero) /\
  (F32.le (close_threshold ng) (level ng) = true ->
   is_open (sample_step ng c) = true).
Proof.
  intros Ho. rewrite sample_step_gate, Ho. simpl. split.
  - intros Hc. apply negb_false_iff in Hc. split; [exact Hc | ].
    unfold gate_close, gate_open. rewrite Ho, andb_false_r. rewrite Hc, Ho.
    reflexivity.
  - intros Hle. rewrite (le_not_lt _ _ Hle). reflexivity.
Qed.

Lemma gate_closes_only_on_low_level_witness :
  let ng := sample_loop sample_filter [f0_5; f0_5] in
  is_open ng = true /\
  F32.lt F32.zero (close_threshold ng) = true /\
  is_open (sample_step ng F32.zero) = true.
Proof.
  intros ng. split; [reflexivity | split; [reflexivity | ]].
  apply (proj2 (gate_closes_only_on_low_level ng F32.zero eq_refl)).
  reflexivity.
Defined.

(** Claim C9, as stated, fails on the held time: on the freshly configured
    filter a sample of amplitude 0.5 leaves the gate closed, but the held
    time at the end of the iteration is not 0. *)
Lemma held_time_not_zero_after_same_iteration_close :
  ~ (forall ng c,
        is_open ng = false ->
        F32.lt (level ng) (close_threshold ng) = true ->
        F32.gt c (open_threshold ng) = true ->
        is_open (sample_step ng c) = false /\
        held_time (sample_step ng c) = F32.zero).
Proof.
  intros H.
  destruct (H sample_filter f0_5 eq_refl eq_refl eq_refl) as [_ E].
  vm_compute in E. discriminate E.
Qed.

(** Claim C9, amended: for a closed gate whose stored level is below the
    close threshold, a sample above the open threshold leaves the gate
    closed at the end of its iteration; the close test of that iteration
    sets the held time to 0, and the same iteration then adds
    [sample_rate_i] to it.  A following sample above the open threshold
    leaves the gate open exactly when the first one raised the level,
    [fmaxf (level, cur_level) - decay_rate], to a value that is not below
    the close threshold. *)
Theorem open_and_close_in_same_iteration ng c c2 :
  is_open ng = false ->
  F32.lt (level ng) (close_threshold ng) = true ->
  F32.gt c (open_threshold ng) = true ->
  F32.gt c2 (open_threshold ng) = true ->
  is_open (gate_open ng c) = true /\
  is_open (sample_step ng c) = false /\
  held_time (gate_close (gate_open ng c)) = F32.zero /\
  held_time (sample_step ng c) = F32.add F32.zero (sample_rate_i ng) /\
  level (sample_step ng c) =
    F32.sub (F32.fmaxf (level ng) c) (decay_rate ng) /\
  is_open (sample_step (sample_step ng c) c2) =
    negb (F32.lt (level (sample_step ng c)) (close_threshold ng)).
Proof.
  intros Ho Hl Hg Hg2.
  assert (H1 : is_open (sample_step ng c) = false).
  { rewrite sample_step_gate, Hl, andb_false_r. reflexivity. }
  split; [unfold gate_open; rewrite Hg, Ho; reflexivity | ].
  split; [exact H1 | ].
  split; [unfold gate_close, gate_open; rewrite Hg, Ho; simpl; rewrite Hl; reflexivity | ].
  split; [ | split].
  - unfold sample_step, update_attenuation, update_level, gate_close, gate_open.
    rewrite Hg, Ho. simpl. rewrite Hl. simpl.
    destruct (F32.gt (F32.add F32.zero (sample_rate_i ng)) (hold_time ng)); reflexivity.
  - unfold sample_step, update_attenuation, update_level, gate_close, gate_open.
    rewrite Hg, Ho. simpl. rewrite Hl. simpl.
    destruct (F32.gt (F32.add F32.zero (sample_rate_i ng)) (hold_time ng)); reflexivity.
  - rewrite sample_step_gate, H1.
    destruct (sample_step_config ng c) as (_ & _ & _ & _ & _ & _ & Hot & Hct & _).
    rewrite Hot, Hct, Hg2. reflexivity.
Qed.

Lemma open_and_close_in_same_iteration_witness :
  is_open (sample_step sample_filter f0_5) = false /\
  held_time (sample_step sample_filter f0_5) = sample_rate_i sample_filter /\
  is_open (sample_step (sample_step sample_filter f0_5) f0_5) = true.
Proof.
  pose proof (open_and_close_in_same_iteration sample_filter f0_5 f0_5
                eq_refl eq_refl eq_refl eq_refl) as (_ & H1 & _ & H2 & _ & H3).
  split; [exact H1 | split; [exact H2 | exact H3]].
Defined.

(** ** The mute state of the source *)

(** After a call for a source that is not muted, nothing fires as long as
    no muted call meets a sample above the open threshold. *)
Lemma run_closed_gate ins :
  forall ng,
    is_open ng = false ->
    Forall (fun x =>
              in_muted x = true ->
              Forall (fun c => F32.gt c (open_threshold ng) = false)
                     (sample_levels (channels ng) (in_audio x))) ins ->
    Forall (fun r => fr_fired r = false /\ fr_calls r = []) (run ng ins) /\
    is_open (run_state ng ins) = false.
Proof.
  unfold run_state.
  induction ins as [ | x rest IH]; intros ng Hc Hall; simpl.
  - split; [constructor | exact Hc].
  - inversion Hall as [ | ? ? Hx Hrest]; subst.
    assert (Hq : fr_fired (filter_call ng x) = false /\
                 is_open (fr_state (filter_call ng x)) = false).
    { destruct (in_muted x) eqn:Hm.
      - apply filter_call_closed; [exact Hm | ].
        apply filter_loop_stays_closed; [exact Hc | exact (Hx eq_refl)].
      - rewrite (filter_call_unmuted ng x Hm). split; reflexivity. }
    destruct Hq as [Hf Ho].
    destruct (filter_call_quiet ng x Hf) as [_ Hcalls].
    destruct (filter_call_config ng x) as (_ & _ & _ & _ & _ & Hch & Hot & _).
    destruct (IH (fr_state (filter_call ng x)) Ho) as [H1 H2].
    + rewrite Hch, Hot. exact Hrest.
    + split; [constructor; [split; assumption | exact H1] | exact H2].
Qed.

(** Claim C5: a call made while the source is not muted closes the gate,
    runs neither the sample loop nor the trigger test and changes nothing
    else; after it, whatever the mute state of the later calls, none fires
    as long as no muted call meets a sample above the open threshold. *)
Theorem unmuted_call_closes_gate ng b ins :
  in_muted b = false ->
  Forall (fun x =>
            in_muted x = true ->
            Forall (fun c => F32.gt c (open_threshold ng) = false)
                   (sample_levels (channels ng) (in_audio x))) ins ->
  filter_call ng b =
    {| fr_state := set_is_open ng false; fr_fired := false; fr_calls := [] |} /\
  Forall (fun r => fr_fired r = false /\ fr_calls r = []) (run ng (b :: ins)) /\
  is_open (run_state ng (b :: ins)) = false.
Proof.
  intros Hm Hall.
  pose proof (filter_call_unmuted ng b Hm) as E.
  split; [exact E | ].
  unfold run_state. simpl. rewrite E. simpl.
  destruct (run_closed_gate ins (set_is_open ng false) eq_refl Hall) as [H1 H2].
  split; [constructor; [split; reflexivity | exact H1] | exact H2].
Qed.

Lemma unmuted_call_closes_gate_witness :
  let ng := sample_loop sample_filter [f0_5; f0_5] in
  let b := unmuted_buffer 3 f0_5 5000 in
  let ins := [muted_buffer 3 F32.zero 6000; unmuted_buffer 2 f0_5 7000;
              muted_buffer 3 F32.zero 8000] in
  is_open ng = true /\
  Forall (fun r => fr_fired r = false /\ fr_calls r = []) (run ng (b :: ins)) /\
  is_open (run_state ng (b :: ins)) = false.
Proof.
  intros ng b ins. split; [reflexivity | ].
  apply (unmuted_call_closes_gate ng b ins).
  - reflexivity.
  - repeat (apply Forall_cons;
            [intros Hm; try discriminate Hm; vm_compute; repeat constructor | ]).
    apply Forall_nil.
Defined.

(** ** Settings updates *)

(** Claim C6: whatever the settings, the state and the host,
    [muted_update] leaves the gate closed and the attenuation, the level
    and the held time at 0. *)
Theorem muted_update_resets_gate db_to_mul h ng s :
  is_open (muted_update db_to_mul h ng s) = false /\
  attenuation (muted_update db_to_mul h ng s) = F32.zero /\
  level (muted_update db_to_mul h ng s) = F32.zero /\
  held_time (muted_update db_to_mul h ng s) = F32.zero.
Proof. update_cases; repeat split. Qed.

(** Claim C10: [muted_update] leaves the time of the last trigger (and
    the backend flag) as they were, and when neither the clip path nor the
    device name changes it leaves the clip, its length and the device as
    they were too; a call made after the update while the time elapsed
    since the trigger before the update is within the refractory window of
    the updated state does not fire. *)
Theorem muted_update_keeps_last_play_time db_to_mul h ng s :
  let ng' := muted_update db_to_mul h ng s in
  last_play_time ng' = last_play_time ng /\
  ma_initialized ng' = ma_initialized ng /\
  (differs (s_file s) (file_path ng) = false ->
   differs (s_device s) (device ng) = false ->
   file_path ng' = file_path ng /\ device ng' = device ng /\
   ma_decoder_st ng' = ma_decoder_st ng /\ file_length ng' = file_length ng) /\
  (forall b,
      wrap64 (time_ms (in_now_ns b) - last_play_time ng) <= refractory ng' ->
      fr_fired (filter_call ng' b) = false).
Proof.
  intros ng'.
  assert (Hl : last_play_time ng' = last_play_time ng).
  { subst ng'. update_cases; reflexivity. }
  split; [exact Hl | ].
  split; [subst ng'; update_cases; reflexivity | ].
  split.
  - intros Hf Hd. subst ng'. unfold muted_update. cbv zeta. simpl file_path.
    rewrite Hf. simpl device. rewrite Hd. simpl. repeat split.
  - intros b Hw. apply filter_call_within_window.
    unfold elapsed. rewrite Hl. exact Hw.
Qed.

Lemma muted_update_keeps_last_play_time_witness :
  let ng := fr_state (filter_call sample_filter (muted_buffer 3 f0_5 2501)) in
  let ng' := muted_update db_to_mul_table sample_host ng default_settings in
  last_play_time ng = 2501 /\
  last_play_time ng' = 2501 /\
  file_length ng' = file_length ng /\
  fr_fired (filter_call ng' (muted_buffer 3 f0_5 5001)) = false.
Proof.
  intros ng ng'.
  destruct (muted_update_keeps_last_play_time db_to_mul_table sample_host ng
              default_settings) as (H1 & _ & H2 & H3).
  split; [reflexivity | split; [exact H1 | split]].
  - apply (H2 eq_refl eq_refl).
  - apply (H3 (muted_buffer 3 f0_5 5001)). vm_compute. discriminate.
Defined.

(** ** The length of the clip *)

(** What [load_wav] stores once the decoder opened the file and reports
    [N] frames: the whole seconds of the clip, times 1000. *)
Lemma load_wav_file_length h d path dec N :
  ma_decoder_init_file h path = Some dec ->
  length_in_pcm_frames dec = Some N ->
  file_length (load_wav h d path) = wrap64 (N / outputSampleRate dec * 1000).
Proof. intros Hi Hn. unfold load_wav. rewrite Hi, Hn. reflexivity. Qed.

(** Claim C8 at a clip of 72000 frames decoded at 48000 Hz (1.5 s): the
    stored length is 1000 ms, whereas N * 1000 / R is 1500. *)
Theorem load_wav_truncates_to_whole_seconds :
  file_length (load_wav sample_host (free_wav bzalloc_muted_data) "urmuted.wav") = 1000 /\
  72000 * 1000 / 48000 = 1500.
Proof. split; reflexivity. Qed.

(** ** The level *)









(** ** The attenuation *)

Lemma update_attenuation_att_inv ng : att_inv ng -> att_inv (update_attenuation ng).
Proof.
  intros (Ha & Hr & Hatt). unfold update_attenuation.
  destruct (is_open ng).
  - repeat split; simpl; try assumption.
    apply fminf_one_att_ok. apply possign_add; [ | exact Ha].
    destruct (attenuation ng) as [[ | ] | [ | ] | | [ | ] m e]; simpl in Hatt;
      try contradiction; reflexivity.
  - simpl. destruct (F32.gt _ _); repeat split; simpl; try assumption.
    apply fmaxf_zero_att_ok. apply sub_below_or_ok; assumption.
Qed.

Lemma sample_step_att_inv ng c : att_inv ng -> att_inv (sample_step ng c).
Proof.
  intros H. unfold sample_step. apply update_attenuation_att_inv.
  unfold update_level, gate_close, gate_open, att_inv in *.
  repeat match goal with
         | |- context [if ?b then _ else _] => destruct b; simpl
         end; exact H.
Qed.

Lemma loop_trace_att_inv levels :
  forall ng, att_inv ng ->
    Forall att_inv (loop_trace ng levels) /\ att_inv (sample_loop ng levels).
Proof.
  unfold sample_loop.
  induction levels as [ | c rest IH]; intros ng H; simpl.
  - split; [constructor | exact H].
  - pose proof (sample_step_att_inv ng c H) as H1.
    destruct (IH _ H1) as [H2 H3].
    split; [constructor; assumption | exact H3].
Qed.

Lemma filter_call_att_inv ng b : att_inv ng -> att_inv (fr_state (filter_call ng b)).
Proof.
  intros H. unfold filter_call, muted_filter_audio.
  destruct (in_muted b); simpl; [ | exact H].
  destruct (loop_trace_att_inv (sample_levels (channels ng) (in_audio b)) ng H) as [_ H1].
  fold (filter_loop ng (in_audio b)) in H1.
  destruct (trigger_due _ _); simpl; exact H1.
Qed.

Lemma run_trace_att_inv ins :
  forall ng, att_inv ng -> Forall att_inv (run_trace ng ins).
Proof.
  induction ins as [ | b rest IH]; intros ng H; simpl; [constructor | ].
  apply Forall_app. split.
  - destruct (in_muted b); [ | constructor].
    apply loop_trace_att_inv. exact H.
  - apply IH. apply filter_call_att_inv. exact H.
Qed.

Lemma to_int_small z : - 2 ^ 31 <= z < 2 ^ 31 -> to_int z = z.
Proof. intros H. unfold to_int. rewrite Z.mod_small; lia. Qed.

Lemma possign_rate ms sr :
  0 <= ms -> 0 <= sr ->
  possign (F32.div (F32.of_int 1)
             (F32.mul (ms_to_secf ms) (F32.of_int sr))) = true.
Proof.
  intros Hms Hsr. unfold ms_to_secf.
  apply possign_div; [reflexivity | ].
  apply possign_mul; [ | apply possign_of_int; exact Hsr].
  apply possign_div; [apply possign_of_int; exact Hms | reflexivity].
Qed.

Lemma muted_update_att_inv db_to_mul h ng s :
  0 <= s_attack_time s <= 10000 ->
  0 <= s_release_time s <= 10000 ->
  0 <= audio_output_get_sample_rate h < 2 ^ 32 ->
  att_inv (muted_update db_to_mul h ng s).
Proof.
  intros Ha Hr Hs.
  assert (A : possign (F32.div (F32.of_int 1)
                (F32.mul (ms_to_secf (to_int (s_attack_time s)))
                         (F32.of_int (audio_output_get_sample_rate h)))) = true).
  { apply possign_rate; [rewrite to_int_small; lia | lia]. }
  assert (R : possign (F32.div (F32.of_int 1)
                (F32.mul (ms_to_secf (to_int (s_release_time s)))
                         (F32.of_int (audio_output_get_sample_rate h)))) = true).
  { apply possign_rate; [rewrite to_int_small; lia | lia]. }
  unfold att_inv. update_cases; repeat split; simpl; assumption || exact I.
Qed.

(** Claim C2: from the state [muted_update] leaves for settings whose
    attack and release times are in their range of 0 to 10000 ms, whatever
    the thresholds, the sample rate, the previous state and the buffers
    delivered afterwards, the attenuation is in the interval from 0 to 1
    after every iteration of the sample loop. *)
Theorem attenuation_stays_in_unit_interval db_to_mul h ng0 s ins :
  0 <= s_attack_time s <= 10000 ->
  0 <= s_release_time s <= 10000 ->
  0 <= audio_output_get_sample_rate h < 2 ^ 32 ->
  Forall (fun st => F32.in_unit (attenuation st) = true)
         (run_trace (muted_update db_to_mul h ng0 s) ins).
Proof.
  intros Ha Hr Hs.
  pose proof (run_trace_att_inv ins _ (muted_update_att_inv db_to_mul h ng0 s Ha Hr Hs)) as H.
  revert H. apply Forall_impl. intros st (_ & _ & Hst).
  apply att_ok_in_unit. exact Hst.
Qed.

Lemma attenuation_stays_in_unit_interval_witness :
  let ins := [muted_buffer 3 f0_5 100; unmuted_buffer 2 f0_5 200;
              muted_buffer 4 F32.zero 300] in
  (0 <= s_attack_time default_settings <= 10000) /\
  (0 <= s_release_time default_settings <= 10000) /\
  (0 <= audio_output_get_sample_rate sample_host < 2 ^ 32) /\
  Forall (fun st => F32.in_unit (attenuation st) = true)
         (run_trace
            (muted_update db_to_mul_table sample_host bzalloc_muted_data
               default_settings) ins).
Proof.
  intros ins.
  assert (Ha : 0 <= s_attack_time default_settings <= 10000) by (simpl; lia).
  assert (Hr : 0 <= s_release_time default_settings <= 10000) by (simpl; lia).
  assert (Hs : 0 <= audio_output_get_sample_rate sample_host < 2 ^ 32) by (simpl; lia).
  split; [exact Ha | split; [exact Hr | split; [exact Hs | ]]].
  exact (attenuation_stays_in_unit_interval db_to_mul_table sample_host
           bzalloc_muted_data default_settings ins Ha Hr Hs).
Defined.

(** * Further properties of the code *)

(** ** The order on [float] is a strict order *)

Lemma scaled_rescale s m e k k' :
  k' <= k -> k <= e ->
  F32.scaled s m e k' = F32.scaled s m e k * 2 ^ (k - k').
Proof.
  intros H1 H2. unfold F32.scaled.
  rewrite <- Z.mul_assoc, <- Z.pow_add_r by lia.
  f_equal. f_equal. lia.
Qed.

Lemma scaled_sign (s : bool) m e k :
  k <= e ->
  if s return Prop then F32.scaled s m e k < 0 else 0 < F32.scaled s m e k.
Proof.
  intros H. unfold F32.scaled.
  assert (0 < 2 ^ (e - k)) by (apply Z.pow_pos_nonneg; lia).
  pose proof (Pos2Z.is_pos m).
  destruct s; unfold cond_Zopp; nia.
Qed.

Lemma compare_real k x y :
  is_real x = true -> is_real y = true -> lowexp k x -> lowexp k y ->
  F32.compare x y = Some (num k x ?= num k y).
Proof.
  unfold F32.compare.
  destruct x as [sx | sx | | sx mx ex], y as [sy | sy | | sy my ey];
    cbn [is_real num lowexp]; intros Hx Hy Kx Ky; try discriminate; try reflexivity.
  - pose proof (scaled_sign sy my ey k Ky) as H. f_equal.
    destruct sy; symmetry; [apply Z.compare_gt_iff | apply Z.compare_lt_iff]; lia.
  - pose proof (scaled_sign sx mx ex k Kx) as H. f_equal.
    destruct sx; symmetry; [apply Z.compare_lt_iff | apply Z.compare_gt_iff]; lia.
  - f_equal.
    rewrite (scaled_rescale sx mx ex (Z.min ex ey) k) by lia.
    rewrite (scaled_rescale sy my ey (Z.min ex ey) k) by lia.
    assert (0 < 2 ^ (Z.min ex ey - k)) by (apply Z.pow_pos_nonneg; lia).
    apply Zmult_compare_compat_r. lia.
Qed.

Lemma lt_irrefl x : F32.lt x x = false.
Proof.
  unfold F32.lt, F32.compare.
  destruct x as [s | [ | ] | | s m e]; simpl; try reflexivity.
  rewrite Z.compare_refl. reflexivity.
Qed.

Lemma lt_trans x y z :
  F32.lt x y = true -> F32.lt y z = true -> F32.lt x z = true.
Proof.
  destruct (is_real x) eqn:Rx, (is_real y) eqn:Ry, (is_real z) eqn:Rz.
  1: { set (k := Z.min (expo x) (Z.min (expo y) (expo z))).
    assert (Kx : lowexp k x) by (unfold lowexp, k, expo; destruct x, y, z; try exact I; lia).
    assert (Ky : lowexp k y) by (unfold lowexp, k, expo; destruct x, y, z; try exact I; lia).
    assert (Kz : lowexp k z) by (unfold lowexp, k, expo; destruct x, y, z; try exact I; lia).
    unfold F32.lt.
    rewrite (compare_real k x y), (compare_real k y z), (compare_real k x z) by assumption.
    destruct (num k x ?= num k y) eqn:E1; try discriminate.
    destruct (num k y ?= num k z) eqn:E2; try discriminate.
    intros _ _. apply Z.compare_lt_iff in E1. apply Z.compare_lt_iff in E2.
    assert (E3 : num k x < num k z) by exact (Z.lt_trans _ _ _ E1 E2).
    apply Z.compare_lt_iff in E3. rewrite E3. reflexivity. }
  all: unfold F32.lt, F32.compare;
    destruct x as [sx | [ | ] | | sx mx ex], y as [sy | [ | ] | | sy my ey],
      z as [sz | [ | ] | | sz mz ez]; simpl in *; try discriminate;
      try (destruct sx); try (destruct sy); try (destruct sz); simpl; congruence.
Qed.


(** ** The level of a sample *)

Lemma lt_nan_l x y : is_nan x = true -> F32.lt x y = false.
Proof. destruct x; try discriminate. reflexivity. Qed.

Lemma lt_nan_r x y : is_nan y = true -> F32.lt x y = false.
Proof. destruct y; try discriminate. destruct x; reflexivity. Qed.

Lemma fmaxf_nan_l y : F32.fmaxf S754_nan y = y.
Proof. reflexivity. Qed.

Lemma fmaxf_spec x y :
  (is_nan x = true /\ F32.fmaxf x y = y) \/
  (is_nan x = false /\ is_nan y = true /\ F32.fmaxf x y = x) \/
  (is_nan x = false /\ is_nan y = false /\ F32.lt x y = true /\ F32.fmaxf x y = y) \/
  (is_nan x = false /\ is_nan y = false /\ F32.lt x y = false /\ F32.fmaxf x y = x).
Proof.
  unfold F32.fmaxf.
  destruct x as [sx | sx | | sx mx ex]; [ | | left; split; reflexivity | ];
    (destruct y as [sy | sy | | sy my ey];
     [ | | right; left; repeat split | ];
     (destruct (F32.lt _ _) eqn:E;
      [right; right; left; repeat split | right; right; right; repeat split])).
Qed.

Lemma peak_of_step cur seen b :
  peak_of cur seen -> peak_of (F32.fmaxf cur b) (seen ++ [b]).
Proof.
  intros (Hin & Hle & Hnan).
  destruct (fmaxf_spec cur b) as [(Nc & E) | [(Nc & Nb & E) | [(Nc & Nb & L & E) | (Nc & Nb & L & E)]]];
    rewrite E; clear E.
  - split; [apply in_or_app; right; left; reflexivity | split].
    + apply Forall_app. split.
      * specialize (Hnan Nc). revert Hnan. apply Forall_impl.
        intros a Ha. apply lt_nan_r. exact Ha.
      * constructor; [apply lt_irrefl | constructor].
    + intros Hb. apply Forall_app. split; [exact (Hnan Nc) | repeat constructor; exact Hb].
  - split; [apply in_or_app; left; exact Hin | split].
    + apply Forall_app. split; [exact Hle | ].
      constructor; [apply lt_nan_r; exact Nb | constructor].
    + intros Hc. congruence.
  - split; [apply in_or_app; right; left; reflexivity | split].
    + apply Forall_app. split.
      * revert Hle. apply Forall_impl. intros a Ha.
        destruct (F32.lt b a) eqn:Hba; [ | reflexivity].
        rewrite (lt_trans cur b a L Hba) in Ha. discriminate Ha.
      * constructor; [apply lt_irrefl | constructor].
    + intros Hb. congruence.
  - split; [apply in_or_app; left; exact Hin | split].
    + apply Forall_app. split; [exact Hle | ].
      constructor; [exact L | constructor].
    + intros Hc. congruence.
Qed.

Lemma fold_fmaxf_peak l :
  forall cur seen,
    peak_of cur seen -> peak_of (fold_left F32.fmaxf l cur) (seen ++ l).
Proof.
  induction l as [ | b rest IH]; intros cur seen H; simpl.
  - rewrite app_nil_r. exact H.
  - replace (seen ++ b :: rest) with ((seen ++ [b]) ++ rest)
      by (rewrite <- app_assoc; reflexivity).
    apply IH. apply peak_of_step. exact H.
Qed.

Lemma cur_level_at_fold n audio i :
  cur_level_at n audio i =
    fold_left F32.fmaxf
      (map (fun j => F32.fabsf (adata audio j i)) (seq 0 n))
      (F32.fabsf (adata audio 0 i)).
Proof.
  unfold cur_level_at.
  generalize (F32.fabsf (adata audio 0 i)) as init.
  induction (seq 0 n) as [ | j rest IH]; intro init; simpl; [reflexivity | apply IH].
Qed.

Lemma cur_level_at_peak n audio i :
  peak_of (cur_level_at n audio i) (channel_levels n audio i).
Proof.
  rewrite cur_level_at_fold. unfold channel_levels.
  apply (fold_fmaxf_peak _ _ [F32.fabsf (adata audio 0 i)]).
  split; [left; reflexivity | split].
  - constructor; [apply lt_irrefl | constructor].
  - intros H. constructor; [exact H | constructor].
Qed.

(** Property X1: the level of a sample is the peak over the channels: no
    channel below [channels] (nor channel 0, which is always read) has an
    absolute value above it, it is the absolute value of one of them, and
    its sign bit is clear. *)
Theorem cur_level_is_peak n audio i j :
  (j < n)%nat \/ j = 0%nat ->
  F32.lt (cur_level_at n audio i) (F32.fabsf (adata audio j i)) = false /\
  In (cur_level_at n audio i) (channel_levels n audio i) /\
  possign (cur_level_at n audio i) = true.
Proof.
  intros Hj. destruct (cur_level_at_peak n audio i) as (Hin & Hle & _).
  split; [ | split; [exact Hin | ]].
  - rewrite Forall_forall in Hle. apply Hle. unfold channel_levels.
    destruct Hj as [Hj | ->]; [right | left; reflexivity].
    apply in_map_iff. exists j. split; [reflexivity | ].
    apply in_seq. lia.
  - unfold channel_levels in Hin.
    assert (Habs : forall x, possign (F32.fabsf x) = true) by (intros [ | | | ]; reflexivity).
    destruct Hin as [<- | Hin]; [apply Habs | ].
    apply in_map_iff in Hin. destruct Hin as (k & <- & _). apply Habs.
Qed.

Lemma cur_level_is_peak_witness :
  let audio := {| data := [[f0_5]; [F32.of_int (-3)]]; frames := 1 |} in
  (1 < 2)%nat /\
  cur_level_at 2 audio 0 = F32.of_int 3 /\
  F32.lt (cur_level_at 2 audio 0) (F32.fabsf (adata audio 1 0)) = false.
Proof.
  intros audio.
  split; [lia | split; [reflexivity | ]].
  apply (cur_level_is_peak 2 audio 0 1). left. lia.
Defined.

(** Property X2: the level of a sample is a NaN only if the sample is a
    NaN in channel 0 and in every channel below [channels]; one channel
    with a number is enough for the level to be a number. *)
Theorem cur_level_nan_only_if_all_nan n audio i j :
  (j < n)%nat \/ j = 0%nat ->
  is_nan (cur_level_at n audio i) = true ->
  is_nan (adata audio j i) = true.
Proof.
  intros Hj Hn. destruct (cur_level_at_peak n audio i) as (_ & _ & Hnan).
  specialize (Hnan Hn). rewrite Forall_forall in Hnan.
  assert (H : is_nan (F32.fabsf (adata audio j i)) = true).
  { apply Hnan. unfold channel_levels.
    destruct Hj as [Hj | ->]; [right | left; reflexivity].
    apply in_map_iff. exists j. split; [reflexivity | ]. apply in_seq. lia. }
  destruct (adata audio j i); try discriminate H. reflexivity.
Qed.

Lemma cur_level_nan_only_if_all_nan_witness :
  let audio := constant_buffer 1 S754_nan in
  is_nan (cur_level_at 2 audio 0) = true /\ is_nan (adata audio 1 0) = true.
Proof.
  intros audio. split; [reflexivity | ].
  apply (cur_level_nan_only_if_all_nan 2 audio 0 1); [left; lia | reflexivity].
Defined.

(** ** One call and runs of calls *)

Lemma filter_call_result ng b :
  let r := filter_call ng b in
  fr_fired r =
    in_muted b && is_open (filter_loop ng (in_audio b)) &&
    (refractory ng <? elapsed ng (time_ms (in_now_ns b))) /\
  fr_calls r = (if fr_fired r then trigger_calls ng else []) /\
  last_play_time (fr_state r) =
    (if fr_fired r then time_ms (in_now_ns b) else last_play_time ng).
Proof.
  intros r. subst r.
  destruct (in_muted b) eqn:Hm.
  - destruct (is_open (filter_loop ng (in_audio b))) eqn:Ho.
    + destruct (Z.ltb_spec (refractory ng) (elapsed ng (time_ms (in_now_ns b)))) as [Hw | Hw].
      * destruct (filter_call_fires ng b Hm Ho Hw) as (H1 & H2 & H3).
        rewrite H1. simpl. repeat split; assumption.
      * pose proof (filter_call_within_window ng b Hw) as H1.
        destruct (filter_call_quiet ng b H1) as [H2 H3].
        rewrite H1. simpl. repeat split; assumption.
    + destruct (filter_call_closed ng b Hm Ho) as [H1 _].
      destruct (filter_call_quiet ng b H1) as [H2 H3].
      rewrite H1. simpl. repeat split; assumption.
  - rewrite (filter_call_unmuted ng b Hm). simpl. repeat split.
Qed.

(** Property X3: a call fires exactly when the source is muted, the gate
    is open after the loop and the time elapsed since the last trigger
    exceeds [file_length + cooldown], both taken before the call; a call
    that fires records its time and makes the calls the settings ask for,
    whether or not a clip or a device is loaded; a call that does not fire
    makes none and keeps the time of the last trigger. *)
Theorem filter_call_outcome ng b :
  let r := filter_call ng b in
  fr_fired r =
    in_muted b && is_open (filter_loop ng (in_audio b)) &&
    (refractory ng <? elapsed ng (time_ms (in_now_ns b))) /\
  fr_calls r = (if fr_fired r then trigger_calls ng else []) /\
  last_play_time (fr_state r) =
    (if fr_fired r then time_ms (in_now_ns b) else last_play_time ng).
Proof. apply filter_call_result. Qed.

Lemma trigger_calls_disabled ng :
  audio_indicator ng = false -> visual_indicator ng = false -> trigger_calls ng = [].
Proof. intros Ha Hv. unfold trigger_calls. rewrite Ha, Hv. reflexivity. Qed.

Lemma run_no_calls ins :
  forall ng,
    audio_indicator ng = false -> visual_indicator ng = false ->
    Forall (fun r => fr_calls r = []) (run ng ins).
Proof.
  induction ins as [ | b rest IH]; intros ng Ha Hv; simpl; [constructor | ].
  destruct (filter_call_config ng b)
    as (_&_&_&_&_&_&_&_&_&_&_&_&_&_& Ha' & Hv' & _).
  constructor.
  - destruct (filter_call_result ng b) as (_ & H & _). rewrite H.
    destruct (fr_fired _); [apply trigger_calls_disabled; assumption | reflexivity].
  - apply IH; congruence.
Qed.

(** Property X4: with both indicators switched off no call of a run plays
    the clip or shows the indicator, whatever the audio and the times. *)
Theorem disabled_indicators_make_no_calls ng ins :
  audio_indicator ng = false -> visual_indicator ng = false ->
  Forall (fun r => fr_calls r = []) (run ng ins).
Proof. apply run_no_calls. Qed.

Lemma disabled_indicators_make_no_calls_witness :
  let ins := [muted_buffer 3 f0_5 3000; muted_buffer 3 f0_5 9000] in
  fire_times silent_filter ins = [3000; 9000] /\
  Forall (fun r => fr_calls r = []) (run silent_filter ins).
Proof.
  intros ins. split; [vm_compute; reflexivity | ].
  apply (disabled_indicators_make_no_calls silent_filter ins); reflexivity.
Defined.

(** Property X5: when the audio backend fails to initialise,
    [muted_create] returns the zeroed structure without reading the
    settings, and no call of a run on it plays the clip or shows the
    indicator. *)
Theorem failed_backend_makes_no_calls db_to_mul h s ins :
  muted_create db_to_mul h false s = bzalloc_muted_data /\
  Forall (fun r => fr_calls r = []) (run (muted_create db_to_mul h false s) ins).
Proof. split; [reflexivity | apply run_no_calls; reflexivity]. Qed.

Lemma run_state_config ins : forall ng, same_config ng (run_state ng ins).
Proof.
  unfold run_state.
  induction ins as [ | b rest IH]; intros ng; simpl.
  - apply same_config_refl.
  - eapply same_config_trans; [apply filter_call_config | apply IH].
Qed.

(** Property X6: a run of calls of [muted_filter_audio] changes none of
    the fields the settings, the clip and the device determine; it writes
    [is_open], [attenuation], [level], [held_time] and [last_play_time]
    only. *)
Theorem run_keeps_configuration ng ins : same_config ng (run_state ng ins).
Proof. apply run_state_config. Qed.

Lemma set_is_open_idem ng b : set_is_open (set_is_open ng b) b = set_is_open ng b.
Proof. reflexivity. Qed.

(** Property X7: a run of calls made while the source is not muted, of
    any length and with any audio, only closes the gate: the level, the
    attenuation and the held time keep the values they had, and nothing
    fires. *)
Theorem unmuted_run_freezes_envelope ng ins :
  ins <> [] ->
  Forall (fun b => in_muted b = false) ins ->
  run_state ng ins = set_is_open ng false /\
  Forall (fun r => fr_fired r = false /\ fr_calls r = []) (run ng ins).
Proof.
  intros Hne Hall.
  assert (G : forall l ng0, Forall (fun b => in_muted b = false) l ->
            run_state (set_is_open ng0 false) l = set_is_open ng0 false /\
            Forall (fun r => fr_fired r = false /\ fr_calls r = []) (run (set_is_open ng0 false) l)).
  { unfold run_state. induction l as [ | b rest IH]; intros ng0 H; simpl.
    - split; [reflexivity | constructor].
    - inversion H as [ | ? ? Hb Hrest]; subst.
      rewrite (filter_call_unmuted _ b Hb). simpl.
      destruct (IH ng0 Hrest) as [H1 H2].
      split; [exact H1 | constructor; [split; reflexivity | exact H2]]. }
  destruct ins as [ | b rest]; [contradiction Hne; reflexivity | ].
  inversion Hall as [ | ? ? Hb Hrest]; subst.
  unfold run_state. simpl. rewrite (filter_call_unmuted ng b Hb). simpl.
  destruct (G rest ng Hrest) as [H1 H2].
  split; [exact H1 | constructor; [split; reflexivity | exact H2]].
Qed.

(** The sample loop does not read the time of the last trigger. *)
Lemma sample_step_set_last_play_time ng t c :
  sample_step (set_last_play_time ng t) c = set_last_play_time (sample_step ng c) t.
Proof. step_cases; try reflexivity; congruence. Qed.

Lemma sample_loop_set_last_play_time levels :
  forall ng t,
    sample_loop (set_last_play_time ng t) levels =
    set_last_play_time (sample_loop ng levels) t.
Proof.
  unfold sample_loop.
  induction levels as [ | c rest IH]; intros ng t; simpl; [reflexivity | ].
  rewrite sample_step_set_last_play_time. apply IH.
Qed.

Lemma set_last_play_time_twice ng t u :
  set_last_play_time (set_last_play_time ng t) u = set_last_play_time ng u.
Proof. reflexivity. Qed.

Lemma set_last_play_time_same ng : set_last_play_time ng (last_play_time ng) = ng.
Proof. destruct ng; reflexivity. Qed.

Lemma filter_call_state_up_to_time ng b :
  in_muted b = true ->
  fr_state (filter_call ng b) =
    set_last_play_time (filter_loop ng (in_audio b))
      (last_play_time (fr_state (filter_call ng b))).
Proof.
  intros Hm. unfold filter_call, muted_filter_audio. rewrite Hm. simpl.
  destruct (trigger_due _ _); simpl.
  - reflexivity.
  - symmetry. apply set_last_play_time_same.
Qed.

Lemma unmuted_run_freezes_envelope_witness :
  let ng := sample_loop sample_filter [f0_5; f0_5] in
  let ins := [unmuted_buffer 3 f0_5 100; unmuted_buffer 2 F32.zero 200] in
  level ng = S754_finite false 16775905 (-25) /\
  run_state ng ins = set_is_open ng false /\
  Forall (fun r => fr_fired r = false /\ fr_calls r = []) (run ng ins).
Proof.
  intros ng ins. split; [reflexivity | ].
  apply (unmuted_run_freezes_envelope ng ins); [discriminate | repeat constructor].
Defined.

(** Property X8: the buffer boundaries and the triggers do not show in the
    gate: after a run of calls on the muted source the state is the one
    the sample loop gives over all the samples of the run in order, with
    only the time of the last trigger set by the calls. *)
Theorem muted_run_is_one_loop ins :
  forall ng,
    Forall (fun b => in_muted b = true) ins ->
    run_state ng ins =
      set_last_play_time (sample_loop ng (run_levels (channels ng) ins))
        (last_play_time (run_state ng ins)).
Proof.
  induction ins as [ | b rest IH]; intros ng Hall.
  - unfold run_state. simpl. symmetry. apply set_last_play_time_same.
  - inversion Hall as [ | ? ? Hb Hrest]; subst.
    change (run_state ng (b :: rest))
      with (run_state (fr_state (filter_call ng b)) rest).
    rewrite (IH _ Hrest) at 1.
    destruct (filter_call_config ng b) as (_ & _ & _ & _ & _ & Hch & _).
    rewrite Hch.
    rewrite (filter_call_state_up_to_time ng b Hb) at 1.
    rewrite sample_loop_set_last_play_time, set_last_play_time_twice.
    f_equal.
    unfold run_levels. simpl. rewrite Hb. fold (run_levels (channels ng) rest).
    unfold filter_loop, sample_loop. rewrite fold_left_app. reflexivity.
Qed.

Lemma muted_run_is_one_loop_witness :
  let ins := [muted_buffer 2 f0_5 3000; muted_buffer 1 F32.zero 3010;
              muted_buffer 3 f0_5 9000] in
  run_state sample_filter ins =
    set_last_play_time
      (sample_loop sample_filter [f0_5; f0_5; F32.zero; f0_5; f0_5; f0_5]) 9000.
Proof.
  intros ins.
  exact (muted_run_is_one_loop ins sample_filter
           ltac:(repeat constructor)).
Defined.

Lemma fire_times_spaced ins :
  forall ng, spaced (refractory ng) (last_play_time ng) (fire_times ng ins).
Proof.
  induction ins as [ | b rest IH]; intros ng; simpl; [exact I | ].
  pose proof (filter_call_config ng b) as Hc.
  specialize (IH (fr_state (filter_call ng b))).
  rewrite (refractory_config _ _ Hc) in IH.
  destruct (fr_fired (filter_call ng b)) eqn:Hf; simpl.
  - assert (H : refractory ng < elapsed ng (time_ms (in_now_ns b)) /\
                last_play_time (fr_state (filter_call ng b)) = time_ms (in_now_ns b)).
    { destruct (Z.ltb_spec (refractory ng) (elapsed ng (time_ms (in_now_ns b)))) as [Hw | Hw].
      - split; [exact Hw | ].
        revert Hf. unfold filter_call, muted_filter_audio.
        destruct (in_muted b); simpl; [ | discriminate].
        destruct (trigger_due _ _); simpl; [reflexivity | discriminate].
      - rewrite (filter_call_within_window ng b Hw) in Hf. discriminate Hf. }
    destruct H as [Hw Hl]. rewrite Hl in IH. split; [exact Hw | exact IH].
  - destruct (filter_call_quiet ng b Hf) as [Hl _]. rewrite Hl in IH. exact IH.
Qed.

(** Property X9: in every run of calls, the times at which calls fire are
    more than [file_length + cooldown] ms apart (on [uint64_t]), starting
    from the time of the last trigger before the run. *)
Theorem triggers_are_spaced ng ins :
  spaced (refractory ng) (last_play_time ng) (fire_times ng ins).
Proof. apply fire_times_spaced. Qed.

Example fire_times_example :
  fire_times sample_filter
    [muted_buffer 3 f0_5 3000; muted_buffer 3 f0_5 4000;
     muted_buffer 3 f0_5 5500; muted_buffer 3 f0_5 5501;
     muted_buffer 3 f0_5 9000] = [3000; 5501; 9000].
Proof. vm_compute. reflexivity. Qed.

(** ** Settings updates: the clip and the device *)

Lemma open_device_available h d name :
  open_device h d name =
    if device_available h name then set_device d (Some name) else d.
Proof.
  unfold open_device, device_available.
  destruct (ma_context_get_devices h); [ | reflexivity].
  destruct (existsb _ _); [ | reflexivity].
  destruct (ma_device_init h name); reflexivity.
Qed.

(** Property X10: after [muted_update] the filter holds no clip and no
    device other than the ones the settings name: each of [file_path] and
    [device] is either unset or the configured name. *)
Theorem muted_update_clip_and_device db_to_mul h ng s :
  let ng' := muted_update db_to_mul h ng s in
  (file_path ng' = None \/ file_path ng' = Some (s_file s)) /\
  (device ng' = None \/ device ng' = Some (s_device s)).
Proof.
  intros ng'. subst ng'.
  update_cases;
    repeat match goal with
           | H : negb (String.eqb _ _) = false |- _ =>
               apply negb_false_iff in H; apply String.eqb_eq in H; subst
           end;
    split; auto.
Qed.

Lemma muted_update_clip_consistent db_to_mul h ng s :
  clip_consistent ng -> clip_consistent (muted_update db_to_mul h ng s).
Proof.
  unfold clip_consistent. intros H.
  update_cases; try (split; intros; congruence); exact H.
Qed.

Lemma filter_call_clip_consistent ng b :
  clip_consistent ng -> clip_consistent (fr_state (filter_call ng b)).
Proof.
  unfold clip_consistent.
  destruct (filter_call_config ng b) as (Hf & _ & _ & Hd & _).
  rewrite Hf, Hd. auto.
Qed.

(** Property X11: through the whole life of a filter (its creation, then
    settings updates and buffers in any order, whatever the backend
    answers) the decoder is initialised exactly when a clip path is
    recorded. *)
Theorem lifetime_clip_consistent db_to_mul h backend_ok settings evs :
  clip_consistent (lifetime db_to_mul h backend_ok settings evs).
Proof.
  unfold lifetime.
  assert (H0 : clip_consistent (muted_create db_to_mul h backend_ok settings)).
  { unfold muted_create. destruct backend_ok.
    - apply muted_update_clip_consistent. split; reflexivity.
    - split; reflexivity. }
  revert H0. generalize (muted_create db_to_mul h backend_ok settings) as ng.
  induction evs as [ | ev rest IH]; intros ng H; simpl; [exact H | ].
  apply IH. destruct ev as [h' s' | b]; simpl.
  - apply muted_update_clip_consistent. exact H.
  - apply filter_call_clip_consistent. exact H.
Qed.

(** Property X12: when [muted_update] has to load the clip and the decoder
    cannot open the file, the filter is left without clip path and without
    decoder, [file_length] keeps the length of the previous clip, and the
    next update will try to load the file again. *)
Theorem muted_update_failed_load db_to_mul h ng s :
  differs (s_file s) (file_path ng) = true ->
  ma_decoder_init_file h (s_file s) = None ->
  let ng' := muted_update db_to_mul h ng s in
  file_path ng' = None /\ ma_decoder_st ng' = None /\
  file_length ng' = file_length ng /\
  differs (s_file s) (file_path ng') = true.
Proof.
  intros Hd Hl ng'. subst ng'.
  unfold muted_update. cbv zeta. simpl file_path. rewrite Hd.
  unfold load_wav. rewrite Hl.
  unfold open_device, free_device, free_wav, differs.
  repeat match goal with
         | |- context [match ?x with _ => _ end] =>
             lazymatch x with
             | context [match _ with _ => _ end] => fail
             | _ => destruct x eqn:?; simpl
             end
         end; repeat split.
Qed.

Lemma muted_update_failed_load_witness :
  let s := settings_with_file "missing.wav" in
  let ng' := muted_update db_to_mul_table sample_host sample_filter s in
  file_path sample_filter = Some "urmuted.wav"%string /\
  file_path ng' = None /\ ma_decoder_st ng' = None /\
  file_length ng' = 1000 /\
  differs (s_file s) (file_path ng') = true.
Proof.
  intros s ng'. split; [reflexivity | ].
  exact (muted_update_failed_load db_to_mul_table sample_host sample_filter s
           eq_refl eq_refl).
Defined.

(** Property X13: whatever the state before, after [muted_update] the
    device named in the settings is the open device whenever the backend
    lists a device of exactly that name and initialises it. *)
Theorem muted_update_opens_available_device db_to_mul h ng s devices :
  ma_context_get_devices h = Some devices ->
  In (s_device s) devices ->
  ma_device_init h (s_device s) = true ->
  device (muted_update db_to_mul h ng s) = Some (s_device s).
Proof.
  intros Hg Hin Hi.
  assert (He : existsb (String.eqb (s_device s)) devices = true).
  { apply existsb_exists. exists (s_device s). split; [exact Hin | apply String.eqb_refl]. }
  unfold muted_update, open_device. cbv zeta. rewrite Hg, He, Hi.
  unfold free_device, load_wav, free_wav, differs. simpl.
  repeat match goal with
         | |- context [match ?x with _ => _ end] =>
             lazymatch x with
             | context [match _ with _ => _ end] => fail
             | _ => destruct x eqn:?; simpl
             end
         end; try reflexivity;
    repeat match goal with
           | H : negb (String.eqb _ _) = false |- _ =>
               apply negb_false_iff in H; apply String.eqb_eq in H; subst
           end; reflexivity.
Qed.

Lemma muted_update_opens_available_device_witness :
  device (muted_update db_to_mul_table sample_host bzalloc_muted_data
            default_settings) = Some "default"%string.
Proof.
  apply (muted_update_opens_available_device db_to_mul_table sample_host
           bzalloc_muted_data default_settings ["default"%string]).
  - reflexivity.
  - left. reflexivity.
  - reflexivity.
Defined.

(** Property X14: when the clip or the device named in the settings
    differs from the one held and the named device cannot be opened (the
    enumeration fails, no device has exactly that name, or its
    initialisation fails), [muted_update] leaves the filter without
    device: the device held before is not kept. *)
Theorem muted_update_drops_unavailable_device db_to_mul h ng s :
  (ma_context_get_devices h = None \/
   (exists devices, ma_context_get_devices h = Some devices /\
                    ~ In (s_device s) devices) \/
   ma_device_init h (s_device s) = false) ->
  (differs (s_file s) (file_path ng) = true \/
   differs (s_device s) (device ng) = true) ->
  device (muted_update db_to_mul h ng s) = None.
Proof.
  intros Hu Hd.
  assert (Ho : forall d, open_device h d (s_device s) = d).
  { intros d. unfold open_device.
    destruct Hu as [Hn | [(devices & Hg & Hnin) | Hi]].
    - rewrite Hn. reflexivity.
    - rewrite Hg.
      destruct (existsb (String.eqb (s_device s)) devices) eqn:He; [ | reflexivity].
      apply existsb_exists in He. destruct He as (x & Hx & E).
      apply String.eqb_eq in E. subst x. contradiction.
    - rewrite Hi. destruct (ma_context_get_devices h); [ | reflexivity].
      destruct (existsb _ _); reflexivity. }
  unfold muted_update. cbv zeta. rewrite !Ho. simpl file_path.
  destruct (differs (s_file s) (file_path ng)) eqn:Hf.
  - simpl. unfold load_wav.
    destruct (ma_decoder_init_file h (s_file s)) as [dec | ];
      [destruct (length_in_pcm_frames dec) | ]; reflexivity.
  - destruct Hd as [Hd | Hd]; [discriminate Hd | ].
    simpl. rewrite Hd. reflexivity.
Qed.

Lemma muted_update_drops_unavailable_device_witness :
  let s := settings_with_device "headset" in
  device sample_filter = Some "default"%string /\
  device (muted_update db_to_mul_table sample_host sample_filter s) = None.
Proof.
  intros s. split; [reflexivity | ].
  apply (muted_update_drops_unavailable_device db_to_mul_table sample_host
           sample_filter s).
  - right. left. exists ["default"%string]. split; [reflexivity | ].
    intros [H | []]. discriminate H.
  - right. reflexivity.
Defined.

Lemma with_clip_same ng :
  with_clip ng (file_path ng) (device ng) (ma_decoder_st ng) (file_length ng) = ng.
Proof. destruct ng; reflexivity. Qed.

Lemma reload_frame h s ng :
  reload h s ng =
    with_clip ng (file_path (reload h s ng)) (device (reload h s ng))
      (ma_decoder_st (reload h s ng)) (file_length (reload h s ng)).
Proof.
  unfold reload. cbv zeta. repeat rewrite open_device_available.
  unfold load_wav, free_wav, free_device.
  destruct (differs (s_file s) (file_path ng));
    [destruct (ma_decoder_init_file h (s_file s)) as [dec | ];
     [destruct (length_in_pcm_frames dec) | ] | ];
    destruct (device_available h (s_device s)); simpl;
    try (destruct (differs (s_device s) (device ng))); simpl;
    rewrite ?String.eqb_refl; simpl;
    destruct ng; reflexivity.
Qed.

Lemma reload_idempotent h s ng :
  reload h s (reload h s ng) = reload h s ng.
Proof.
  unfold reload. cbv zeta. repeat rewrite open_device_available.
  unfold load_wav, free_wav, free_device.
  destruct (differs (s_file s) (file_path ng)) eqn:Hf;
    [destruct (ma_decoder_init_file h (s_file s)) as [dec | ] eqn:Hi;
     [destruct (length_in_pcm_frames dec) eqn:Hlen | ] | ];
    destruct (device_available h (s_device s)) eqn:Hav; simpl;
    try (destruct (differs (s_device s) (device ng)) eqn:Hd); simpl;
    repeat (progress (rewrite ?String.eqb_refl, ?Hf, ?Hi, ?Hlen, ?Hav, ?Hd; simpl));
    reflexivity.
Qed.

Lemma muted_update_stages db_to_mul h ng s :
  muted_update db_to_mul h ng s = reload h s (configure db_to_mul h ng s).
Proof. reflexivity. Qed.

Lemma configure_with_clip db_to_mul h ng s fp dv dec fl :
  configure db_to_mul h (with_clip (configure db_to_mul h ng s) fp dv dec fl) s =
  with_clip (configure db_to_mul h ng s) fp dv dec fl.
Proof. reflexivity. Qed.

(** Property X15: applying the same settings twice, with the backend
    answering the same, leaves the state the first update left. *)
Theorem muted_update_idempotent db_to_mul h ng s :
  muted_update db_to_mul h (muted_update db_to_mul h ng s) s =
  muted_update db_to_mul h ng s.
Proof.
  rewrite !muted_update_stages.
  rewrite (reload_frame h s (configure db_to_mul h ng s)) at 1.
  rewrite configure_with_clip, <- reload_frame.
  apply reload_idempotent.
Qed.

(** ** The length of the clip, in general *)

(** Property X16: for a clip of [N] frames at a sample rate [R] above 0,
    [load_wav] stores 1000 times the whole seconds of the clip: a multiple
    of 1000 that is at most the length in ms, [N * 1000 / R], and less
    than 1000 ms below it. *)
Theorem load_wav_whole_seconds h d path dec N :
  ma_decoder_init_file h path = Some dec ->
  length_in_pcm_frames dec = Some N ->
  0 < outputSampleRate dec ->
  0 <= N -> N / outputSampleRate dec * 1000 < 2 ^ 64 ->
  let L := file_length (load_wav h d path) in
  L = 1000 * (N / outputSampleRate dec) /\
  L <= N * 1000 / outputSampleRate dec < L + 1000.
Proof.
  intros Hi Hn HR HN Hb L. subst L.
  rewrite (load_wav_file_length h d path dec N Hi Hn).
  set (R := outputSampleRate dec) in *.
  assert (Hq : 0 <= N / R) by (apply Z.div_pos; lia).
  unfold wrap64. rewrite Z.mod_small by lia.
  split; [lia | ].
  pose proof (Z.mul_div_le N R HR) as H1.
  pose proof (Z.mul_succ_div_gt N R HR) as H2.
  split.
  - apply Z.div_le_lower_bound; [exact HR | nia].
  - apply Z.div_lt_upper_bound; [exact HR | nia].
Qed.

Lemma load_wav_whole_seconds_witness :
  let L := file_length (load_wav sample_host bzalloc_muted_data "urmuted.wav") in
  L = 1000 * (72000 / 48000) /\ L <= 72000 * 1000 / 48000 < L + 1000.
Proof.
  apply (load_wav_whole_seconds sample_host bzalloc_muted_data "urmuted.wav"
           {| outputSampleRate := 48000; length_in_pcm_frames := Some 72000 |}
           72000); try reflexivity; simpl; lia.
Defined.

(** ** The device list of the properties *)

(** Property X17: every item [populate_list] offers has its name as value,
    and [open_device] finds that value among the devices: the device is
    opened exactly when its initialisation succeeds. *)
Theorem populate_list_offers_openable_names h d name value :
  In (name, value) (populate_list h) ->
  value = name /\
  open_device h d value =
    if ma_device_init h value then set_device d (Some value) else d.
Proof.
  unfold populate_list, open_device.
  destruct (ma_context_get_devices h) as [devices | ]; [ | intros []].
  intros Hin. apply in_map_iff in Hin. destruct Hin as (x & E & Hx).
  inversion E; subst. split; [reflexivity | ].
  assert (He : existsb (String.eqb value) devices = true).
  { apply existsb_exists. exists value. split; [exact Hx | apply String.eqb_refl]. }
  rewrite He. reflexivity.
Qed.

Lemma populate_list_offers_openable_names_witness :
  populate_list sample_host = [("default", "default")]%string /\
  open_device sample_host bzalloc_muted_data "default" =
    set_device bzalloc_muted_data (Some "default"%string).
Proof.
  split; [reflexivity | ].
  exact (proj2 (populate_list_offers_openable_names sample_host
                  bzalloc_muted_data "default" "default"
                  (or_introl eq_refl))).
Defined.

(** ** The visual indicator *)

Lemma flash_timeout_from_value n :
  forall c, flash_timeout_from n c = true ->
  forall i, c <= i < c + Z.of_nat n -> flash_timeout i = 7 * i / 10.
Proof.
  induction n as [ | k IH]; intros c H i Hi; [lia | ].
  cbn [flash_timeout_from] in H. apply andb_true_iff in H. destruct H as [H0 H1].
  destruct (Z.eq_dec i c) as [-> | Hne].
  - apply Z.eqb_eq. exact H0.
  - apply (IH (c + 1) H1). lia.
Qed.

Lemma flash_timeout_table : flash_timeout_from (Z.to_nat 10001) 0 = true.
Proof. vm_compute. reflexivity. Qed.

Lemma flash_timeout_value c :
  0 <= c <= 10000 -> flash_timeout c = 7 * c / 10.
Proof.
  intros Hc. apply (flash_timeout_from_value _ _ flash_timeout_table). lia.
Qed.

(** Property X18: for every cooldown in the range of the settings (0 to
    10000 ms) a trigger with the visual indicator on asks for a flash of
    [7 * cooldown / 10] ms, rounded down; that is less than the cooldown
    as soon as the cooldown is above 0, and it is 0 exactly for the
    cooldowns 0 and 1. *)
Theorem flash_shorter_than_cooldown ng :
  0 <= cooldown ng <= 10000 ->
  visual_indicator ng = true ->
  trigger_calls ng =
    (if audio_indicator ng then [play_audio] else []) ++
    [indicator_show (7 * cooldown ng / 10) (indicator_size ng)] /\
  (0 < cooldown ng -> 7 * cooldown ng / 10 < cooldown ng) /\
  (7 * cooldown ng / 10 <= 0 <-> cooldown ng <= 1).
Proof.
  intros Hc Hv. unfold trigger_calls. rewrite Hv.
  fold (flash_timeout (cooldown ng)). rewrite (flash_timeout_value _ Hc).
  split; [reflexivity | split].
  - intros H. apply Z.div_lt_upper_bound; lia.
  - split; intros H.
    + destruct (Z.leb_spec (cooldown ng) 1); [assumption | ].
      assert (1 <= 7 * cooldown ng / 10) by (apply Z.div_le_lower_bound; lia). lia.
    + assert (7 * cooldown ng / 10 < 1) by (apply Z.div_lt_upper_bound; lia). lia.
Qed.

Lemma flash_shorter_than_cooldown_witness :
  (0 <= cooldown sample_filter <= 10000) /\
  trigger_calls sample_filter = [indicator_show 1050 45].
Proof.
  assert (H : 0 <= cooldown sample_filter <= 10000) by (vm_compute; split; discriminate).
  split; [exact H | ].
  exact (proj1 (flash_shorter_than_cooldown sample_filter H eq_refl)).
Defined.

Lemma tick_idle w a b :
  m_want_show w = false ->
  (m_timeout_ms w <= 0 \/ wrap64 (wrap64 b - m_start_time w) <= m_timeout_ms w) ->
  tick w a b = w.
Proof.
  intros Hw H. unfold tick. rewrite Hw.
  destruct (Z.ltb_spec 0 (m_timeout_ms w)); [ | reflexivity].
  destruct (Z.ltb_spec (m_timeout_ms w) (wrap64 (wrap64 b - m_start_time w)));
    [lia | reflexivity].
Qed.

Lemma ticks_idle clock :
  forall w,
    m_want_show w = false ->
    Forall (fun t => m_timeout_ms w <= 0 \/
                     wrap64 (wrap64 (snd t) - m_start_time w) <= m_timeout_ms w) clock ->
    ticks w clock = w.
Proof.
  unfold ticks.
  induction clock as [ | t rest IH]; intros w Hw Hall; simpl; [reflexivity | ].
  inversion Hall as [ | ? ? Ht Hrest]; subst.
  rewrite (tick_idle w (fst t) (snd t) Hw Ht). apply IH; assumption.
Qed.

(** Property X19: a request with a timeout above 0 makes the overlay
    visible, with the requested size, at the next tick, whatever its state
    before; it stays visible through the ticks at which the time since
    that tick is at most the timeout, the first tick after that hides it
    and clears the timeout, and later ticks leave it hidden. *)
Theorem overlay_flash_timeline w timeout size a a' quiet c c' later :
  0 < timeout ->
  wrap64 (wrap64 a' - wrap64 a) <= timeout ->
  Forall (fun t => wrap64 (wrap64 (snd t) - wrap64 a) <= timeout) quiet ->
  timeout < wrap64 (wrap64 c' - wrap64 a) ->
  let shown := ticks (tick (queue_show w timeout size) a a') quiet in
  let hidden := tick shown c c' in
  visible shown = true /\ fixed_size shown = size /\
  visible hidden = false /\ m_timeout_ms hidden = 0 /\
  ticks hidden later = hidden.
Proof.
  intros Ht Ha Hq Hc shown hidden.
  set (w1 := {| m_want_show := false; m_timeout_ms := timeout;
                m_indicator_size := size; m_start_time := wrap64 a;
                visible := true; fixed_size := size |}).
  assert (E1 : tick (queue_show w timeout size) a a' = w1).
  { unfold tick, queue_show. simpl.
    destruct (Z.ltb_spec 0 timeout); [ | lia].
    destruct (Z.ltb_spec timeout (wrap64 (wrap64 a' - wrap64 a))); [lia | reflexivity]. }
  assert (E2 : shown = w1).
  { subst shown. rewrite E1. apply ticks_idle; [reflexivity | ].
    revert Hq. apply Forall_impl. intros t H. right. exact H. }
  assert (E3 : hidden =
               {| m_want_show := false; m_timeout_ms := 0;
                  m_indicator_size := size; m_start_time := wrap64 a;
                  visible := false; fixed_size := size |}).
  { subst hidden. rewrite E2. unfold tick, w1. simpl.
    destruct (Z.ltb_spec 0 timeout); [ | lia].
    destruct (Z.ltb_spec timeout (wrap64 (wrap64 c' - wrap64 a))); [reflexivity | lia]. }
  rewrite E2, E3. simpl. repeat split.
  apply ticks_idle; [reflexivity | ].
  apply Forall_forall. intros t _. left. simpl. lia.
Qed.

Lemma overlay_flash_timeline_witness :
  let shown :=
    ticks (tick (queue_show new_OverlayWidget 1050 45) 5000 5000)
          [(5100, 5100); (6000, 6000); (6050, 6050)] in
  let hidden := tick shown 6100 6100 in
  visible shown = true /\ fixed_size shown = 45 /\
  visible hidden = false /\ m_timeout_ms hidden = 0 /\
  ticks hidden [(6200, 6200); (9000, 9000)] = hidden.
Proof.
  apply (overlay_flash_timeline new_OverlayWidget 1050 45 5000 5000
           [(5100, 5100); (6000, 6000); (6050, 6050)] 6100 6100
           [(6200, 6200); (9000, 9000)]).
  - lia.
  - vm_compute. discriminate.
  - repeat constructor; vm_compute; discriminate.
  - vm_compute. reflexivity.
Defined.

(** Property X20: a request with a timeout of 0 or below makes the overlay
    visible at the next tick and no later tick hides it. *)
Theorem overlay_never_hides_without_timeout w timeout size a a' clock :
  timeout <= 0 ->
  let shown := ticks (tick (queue_show w timeout size) a a') clock in
  visible shown = true /\ fixed_size shown = size.
Proof.
  intros Ht shown.
  set (w1 := {| m_want_show := false; m_timeout_ms := timeout;
                m_indicator_size := size; m_start_time := wrap64 a;
                visible := true; fixed_size := size |}).
  assert (E1 : tick (queue_show w timeout size) a a' = w1).
  { unfold tick, queue_show. simpl.
    destruct (Z.ltb_spec 0 timeout); [lia | reflexivity]. }
  assert (E2 : shown = w1).
  { subst shown. rewrite E1. apply ticks_idle; [reflexivity | ].
    apply Forall_forall. intros t _. left. exact Ht. }
  rewrite E2. split; reflexivity.
Qed.

Lemma overlay_never_hides_without_timeout_witness :
  visible (ticks (tick (queue_show new_OverlayWidget 0 45) 5000 5000)
             [(5100, 5100); (900000, 900000)]) = true.
Proof.
  apply (overlay_never_hides_without_timeout new_OverlayWidget 0 45 5000 5000
           [(5100, 5100); (900000, 900000)]). lia.
Defined.

(** ** Attack and release times of 0 ms *)

Lemma Zdigits2_exact m k :
  0 <= k -> 2 ^ k <= m < 2 ^ (k + 1) -> Zdigits2 m = k + 1.
Proof.
  intros Hk [Hlo Hhi].
  assert (0 < 2 ^ k) by (apply Z.pow_pos_nonneg; lia).
  destruct m as [ | p | p]; try lia.
  simpl. pose proof (digits2_pos_range p) as [Dlo Dhi].
  assert (k < Z.pos (digits2_pos p)).
  { apply (Z.pow_lt_mono_r_iff 2); [lia | lia | lia]. }
  assert (Z.pos (digits2_pos p) - 1 < k + 1).
  { apply (Z.pow_lt_mono_r_iff 2); [lia | lia | lia]. }
  lia.
Qed.

(** Rounding a significand of [24 + n] digits in the normal range gives a
    finite number of the same sign. *)
Lemma binary_round_aux_finite s m e l n :
  0 <= n -> 2 ^ (23 + n) <= m < 2 ^ (24 + n) ->
  -149 <= e + n -> e + n + 1 <= 104 ->
  exists m' e', binary_round_aux F32.prec F32.emax s m e l = S754_finite s m' e'.
Proof.
  intros Hn [Hlo Hhi] Hemin Hemax.
  assert (P23 : 0 < 2 ^ 23) by reflexivity.
  assert (Pn : 0 < 2 ^ n) by (apply Z.pow_pos_nonneg; lia).
  assert (Hm0 : 0 <= m).
  { assert (0 < 2 ^ (23 + n)) by (apply Z.pow_pos_nonneg; lia). lia. }
  assert (Hd : Zdigits2 m = 24 + n).
  { replace (24 + n) with ((23 + n) + 1) by lia. apply Zdigits2_exact; [lia | ].
    replace (23 + n + 1) with (24 + n) by lia. split; assumption. }
  unfold binary_round_aux.
  pose proof (shr_fexp_cases m e l Hm0) as H1.
  destruct (shr_fexp F32.prec F32.emax m e l) as [mrs1 e1].
  destruct H1 as [Hn1 H1].
  rewrite Hd in H1.
  assert (F1 : fexp F32.prec F32.emax (24 + n + e) = e + n)
    by (unfold fexp, emin, F32.prec, F32.emax; lia).
  rewrite F1 in H1.
  assert (B1 : e1 = e + n /\ 2 ^ 23 <= shr_m mrs1 < 2 ^ 24).
  { rewrite Z.pow_add_r in Hlo, Hhi by lia.
    destruct H1 as [(-> & -> & Hle) | (Hlt & -> & ->)].
    - assert (n = 0) by lia. subst n. rewrite Z.mul_1_r in Hlo, Hhi.
      split; [lia | split; assumption].
    - split; [reflexivity | ].
      replace (e + n - e) with n by lia. split.
      + apply Z.div_le_lower_bound; [exact Pn | lia].
      + apply Z.div_lt_upper_bound; [exact Pn | lia]. }
  destruct B1 as [-> B1].
  set (m2 := round_nearest_even (shr_m mrs1) (loc_of_shr_record mrs1)).
  assert (B2 : 2 ^ 23 <= m2 <= 2 ^ 24).
  { subst m2.
    destruct (round_nearest_even_cases (shr_m mrs1) (loc_of_shr_record mrs1)) as [-> | ->]; lia. }
  assert (Hm2 : 0 <= m2) by lia.
  pose proof (shr_fexp_cases m2 (e + n) loc_Exact Hm2) as H2.
  destruct (shr_fexp F32.prec F32.emax m2 (e + n) loc_Exact) as [mrs2 e2].
  destruct H2 as [Hn2 H2].
  assert (B3 : 0 < shr_m mrs2 /\ e2 <= 104).
  { destruct H2 as [(-> & -> & _) | (Hlt & E2 & ->)]; [split; lia | ].
    assert (D2 : Zdigits2 m2 = 24 \/ Zdigits2 m2 = 25).
    { destruct (Z.eq_dec m2 (2 ^ 24)) as [E | NE].
      - right. rewrite E. reflexivity.
      - left. change 24 with (23 + 1). apply Zdigits2_exact; [lia | ].
        change (2 ^ (23 + 1)) with (2 ^ 24). lia. }
    assert (E2' : e2 = e + n + 1).
    { revert E2. unfold fexp, emin, F32.prec, F32.emax. lia. }
    split; [ | lia].
    replace (e2 - (e + n)) with 1 by lia.
    apply Z.div_str_pos. change (2 ^ 1) with 2. lia. }
  destruct B3 as [B3 He2].
  destruct (shr_m mrs2) as [ | p | p]; try lia.
  exists p, e2.
  destruct (Z.leb_spec e2 (F32.emax - F32.prec)) as [ _ | Hbig]; [reflexivity | ].
  unfold F32.emax, F32.prec in Hbig. lia.
Qed.

Lemma shl_align_none p e e' : e <= e' -> shl_align p e e' = (p, e).
Proof.
  intros H. unfold shl_align.
  destruct (e' - e) eqn:E; try reflexivity. lia.
Qed.

(** An unsigned 32 bit integer above 0 converts to a positive finite
    number. *)
Lemma of_int_finite z :
  0 < z < 2 ^ 32 -> exists m e, F32.of_int z = S754_finite false m e.
Proof.
  intros [H0 H32]. unfold F32.of_int, binary_normalize.
  destruct z as [ | p | p]; try lia.
  unfold binary_round.
  pose proof (digits2_pos_range p) as [Dlo Dhi].
  set (d := Z.pos (digits2_pos p)) in *.
  assert (Hd1 : 1 <= d) by (subst d; lia).
  assert (Hd32 : d <= 32).
  { assert (d - 1 < 32); [ | lia].
    apply (Z.pow_lt_mono_r_iff 2); lia. }
  assert (F : fexp F32.prec F32.emax (d + 0) = d - 24)
    by (unfold fexp, emin, F32.prec, F32.emax; lia).
  rewrite F.
  destruct (Z.leb_spec 0 (d - 24)) as [Hge | Hlt].
  - rewrite shl_align_none by lia.
    apply (binary_round_aux_finite false (Z.pos p) 0 loc_Exact (d - 24)); try lia.
    replace (23 + (d - 24)) with (d - 1) by lia.
    replace (24 + (d - 24)) with d by lia. split; assumption.
  - pose proof (shl_align_value p 0 (d - 24)) as H.
    destruct (shl_align p 0 (d - 24)) as [p' e2].
    destruct H as [-> Hv]; [lia | ].
    apply (binary_round_aux_finite false (Z.pos p') (d - 24) loc_Exact 0); try lia.
    rewrite Hv. replace (0 - (d - 24)) with (24 - d) by lia.
    rewrite !Z.add_0_r.
    assert (P : 0 < 2 ^ (24 - d)) by (apply Z.pow_pos_nonneg; lia).
    replace (2 ^ 23) with (2 ^ (d - 1) * 2 ^ (24 - d))
      by (rewrite <- Z.pow_add_r by lia; f_equal; lia).
    replace (2 ^ 24) with (2 ^ d * 2 ^ (24 - d))
      by (rewrite <- Z.pow_add_r by lia; f_equal; lia).
    split; nia.
Qed.

(** A time of 0 ms makes the rate infinite. *)
Lemma zero_time_rate sr :
  0 < sr < 2 ^ 32 ->
  F32.div (F32.of_int 1) (F32.mul (ms_to_secf 0) (F32.of_int sr)) =
    S754_infinity false.
Proof.
  intros Hsr. destruct (of_int_finite sr Hsr) as (m & e & E). rewrite E.
  reflexivity.
Qed.

Lemma att_ok_add_infinity x :
  att_ok x -> F32.fminf F32.one (F32.add x (S754_infinity false)) = F32.one.
Proof.
  destruct x as [[ | ] | [ | ] | | [ | ] m e]; simpl; intros H;
    try contradiction; reflexivity.
Qed.

Lemma att_ok_sub_infinity x :
  att_ok x -> F32.fmaxf F32.zero (F32.sub x (S754_infinity false)) = F32.zero.
Proof.
  destruct x as [[ | ] | [ | ] | | [ | ] m e]; simpl; intros H;
    try contradiction; reflexivity.
Qed.

Lemma sample_step_instant_attack ng c :
  att_inv ng -> attack_rate ng = S754_infinity false ->
  is_open (sample_step ng c) = true ->
  attenuation (sample_step ng c) = F32.one.
Proof.
  intros (_ & _ & Hatt) Ha.
  unfold sample_step.
  set (ng1 := update_level (gate_close (gate_open ng c)) c).
  assert (E : attenuation ng1 = attenuation ng /\ attack_rate ng1 = attack_rate ng).
  { subst ng1. unfold update_level, gate_close, gate_open.
    repeat match goal with
           | |- context [if ?b then _ else _] => destruct b; simpl
           end; split; reflexivity. }
  destruct E as [E1 E2]. clearbody ng1.
  unfold update_attenuation.
  destruct (is_open ng1) eqn:Ho.
  - simpl. intros _. rewrite E1, E2, Ha. apply att_ok_add_infinity. exact Hatt.
  - simpl. destruct (F32.gt _ _); simpl; rewrite Ho; discriminate.
Qed.

Lemma sample_step_instant_release ng c :
  att_inv ng -> release_rate ng = S754_infinity false ->
  is_open (sample_step ng c) = false ->
  F32.gt (held_time (sample_step ng c)) (hold_time ng) = true ->
  attenuation (sample_step ng c) = F32.zero.
Proof.
  intros (_ & _ & Hatt) Hr.
  unfold sample_step.
  set (ng1 := update_level (gate_close (gate_open ng c)) c).
  assert (E : attenuation ng1 = attenuation ng /\ release_rate ng1 = release_rate ng /\
              hold_time ng1 = hold_time ng).
  { subst ng1. unfold update_level, gate_close, gate_open.
    repeat match goal with
           | |- context [if ?b then _ else _] => destruct b; simpl
           end; repeat split. }
  destruct E as (E1 & E2 & E3). clearbody ng1.
  unfold update_attenuation.
  destruct (is_open ng1) eqn:Ho.
  - simpl. rewrite Ho. discriminate.
  - simpl. rewrite E3.
    destruct (F32.gt (F32.add (held_time ng1) (sample_rate_i ng1)) (hold_time ng)) eqn:Hg;
      simpl; intros _ Hh.
    + rewrite E1, E2, Hr. apply att_ok_sub_infinity. exact Hatt.
    + rewrite Hg in Hh. discriminate Hh.
Qed.

(** What holds after every iteration of the loop, along a run. *)
Lemma run_trace_invariant (P : muted_data -> Prop) (Q : muted_data -> Prop) :
  (forall ng c, P ng -> P (sample_step ng c) /\ Q (sample_step ng c)) ->
  (forall ng t, P ng -> P (set_last_play_time ng t)) ->
  (forall ng b, P ng -> P (set_is_open ng b)) ->
  forall ins ng, P ng -> Forall Q (run_trace ng ins).
Proof.
  intros Hstep Ht Ho.
  assert (L : forall levels ng, P ng ->
              Forall Q (loop_trace ng levels) /\ P (sample_loop ng levels)).
  { unfold sample_loop.
    induction levels as [ | c rest IH]; intros ng H; simpl.
    - split; [constructor | exact H].
    - destruct (Hstep ng c H) as [H1 H2]. destruct (IH _ H1) as [H3 H4].
      split; [constructor; assumption | exact H4]. }
  induction ins as [ | b rest IH]; intros ng H; simpl; [constructor | ].
  apply Forall_app. split.
  - destruct (in_muted b); [apply L; exact H | constructor].
  - apply IH. unfold filter_call, muted_filter_audio.
    destruct (in_muted b); simpl; [ | apply Ho; exact H].
    destruct (L (sample_levels (channels ng) (in_audio b)) ng H) as [_ H1].
    fold (filter_loop ng (in_audio b)) in H1.
    destruct (trigger_due _ _); simpl; [apply Ht | ]; exact H1.
Qed.

(** Property X21: with an attack time of 0 ms (and a sample rate above 0)
    the attack rate is [1 / 0], plus infinity, and the attenuation is 1
    after every iteration of the sample loop that leaves the gate open. *)
Theorem zero_attack_time_is_instant db_to_mul h ng0 s ins :
  s_attack_time s = 0 ->
  0 <= s_release_time s <= 10000 ->
  0 < audio_output_get_sample_rate h < 2 ^ 32 ->
  let ng := muted_update db_to_mul h ng0 s in
  attack_rate ng = S754_infinity false /\
  Forall (fun st => is_open st = true -> attenuation st = F32.one)
         (run_trace ng ins).
Proof.
  intros Ha Hr Hs ng.
  assert (Hrate : attack_rate ng = S754_infinity false).
  { subst ng. rewrite <- (zero_time_rate _ Hs).
    update_cases; rewrite Ha; reflexivity. }
  split; [exact Hrate | ].
  apply (run_trace_invariant
           (fun st => att_inv st /\ attack_rate st = S754_infinity false)).
  - intros st c [Hi Hst]. split; [split | ].
    + apply sample_step_att_inv. exact Hi.
    + destruct (sample_step_config st c) as (_&_&_&_&_&_&_&_&_& E &_). congruence.
    + apply sample_step_instant_attack; assumption.
  - intros st t H. exact H.
  - intros st b H. exact H.
  - split; [ | exact Hrate].
    subst ng. apply muted_update_att_inv; lia.
Qed.

Lemma zero_attack_time_is_instant_witness :
  let ng := muted_update db_to_mul_table sample_host bzalloc_muted_data
              (settings_with_times 0 150) in
  attack_rate ng = S754_infinity false /\
  Forall (fun st => is_open st = true -> attenuation st = F32.one)
         (run_trace ng [muted_buffer 3 f0_5 100]).
Proof.
  apply (zero_attack_time_is_instant db_to_mul_table sample_host
           bzalloc_muted_data (settings_with_times 0 150)
           [muted_buffer 3 f0_5 100]); simpl; lia.
Defined.

(** Property X22: with a release time of 0 ms (and a sample rate above 0)
    the release rate is plus infinity, and the attenuation is 0 after
    every iteration of the sample loop that leaves the gate closed with
    the held time above the hold time. *)
Theorem zero_release_time_is_instant db_to_mul h ng0 s ins :
  0 <= s_attack_time s <= 10000 ->
  s_release_time s = 0 ->
  0 < audio_output_get_sample_rate h < 2 ^ 32 ->
  let ng := muted_update db_to_mul h ng0 s in
  release_rate ng = S754_infinity false /\
  Forall (fun st =>
            is_open st = false ->
            F32.gt (held_time st) (hold_time st) = true ->
            attenuation st = F32.zero)
         (run_trace ng ins).
Proof.
  intros Ha Hr Hs ng.
  assert (Hrate : release_rate ng = S754_infinity false).
  { subst ng. rewrite <- (zero_time_rate _ Hs).
    update_cases; rewrite Hr; reflexivity. }
  split; [exact Hrate | ].
  apply (run_trace_invariant
           (fun st => att_inv st /\ release_rate st = S754_infinity false)).
  - intros st c [Hi Hst]. split; [split | ].
    + apply sample_step_att_inv. exact Hi.
    + destruct (sample_step_config st c) as (_&_&_&_&_&_&_&_&_&_& E &_). congruence.
    + destruct (sample_step_config st c) as (_&_&_&_&_&_&_&_&_&_&_& E &_).
      rewrite E. apply sample_step_instant_release; assumption.
  - intros st t H. exact H.
  - intros st b H. exact H.
  - split; [ | exact Hrate].
    subst ng. apply muted_update_att_inv; lia.
Qed.

(** The theorem at a hold time and a release time of 0 ms: two samples
    of amplitude 0.0625 open the gate, silence lets the level decay, and
    after 956 silent samples the gate is still open with an attenuation
    of about 0.8; the next sample closes it, the held time is above the
    hold time, and the attenuation is 0 at once. *)
Lemma zero_release_time_is_instant_witness :
  let ng := muted_update db_to_mul_table sample_host bzalloc_muted_data
              (settings_with_envelope 25 0 0) in
  let trace := run_trace ng [muted_buffer 2 f0_0625 100;
                             muted_buffer 1000 F32.zero 200] in
  (release_rate ng = S754_infinity false /\
   Forall (fun st =>
             is_open st = false ->
             F32.gt (held_time st) (hold_time st) = true ->
             attenuation st = F32.zero)
          trace) /\
  (is_open (nth 957 trace ng) = true /\
   attenuation (nth 957 trace ng) = S754_finite false 13379818 (-24)) /\
  (is_open (nth 958 trace ng) = false /\
   F32.gt (held_time (nth 958 trace ng)) (hold_time (nth 958 trace ng)) = true /\
   attenuation (nth 958 trace ng) = F32.zero).
Proof.
  split; [ | split; vm_compute; repeat split].
  apply (zero_release_time_is_instant db_to_mul_table sample_host
           bzalloc_muted_data (settings_with_envelope 25 0 0)
           [muted_buffer 2 f0_0625 100; muted_buffer 1000 F32.zero 200]);
    simpl; lia.
Defined.

(** ** The playback callback *)

Lemma playback_cb_returns decoder read :
  delivers_frames decoder read ->
  forall fuel dec frame_count,
    0 <= frame_count < 2 ^ 32 ->
    (Z.to_nat frame_count < fuel)%nat ->
    exists r,
      playback_cb decoder read fuel dec frame_count = Some r /\
      fold_right Z.add 0 (pb_reads r) + pb_frame_count r = frame_count /\
      0 <= pb_frame_count r /\
      Forall (fun k => 0 < k) (pb_reads r).
Proof.
  intros Hc.
  induction fuel as [ | fuel IH]; intros dec n Hn Hf; [lia | ].
  simpl.
  destruct (Z.ltb_spec 0 n) as [Hpos | Hz].
  - pose proof (Hc dec n Hpos) as Hd.
    destruct (read dec n) as [[res k] dec'].
    simpl in Hd.
    destruct res.
    + specialize (Hd eq_refl).
      assert (W : wrap32 (n - wrap32 k) = n - k).
      { unfold wrap32. rewrite (Z.mod_small k) by lia.
        apply Z.mod_small. lia. }
      rewrite W.
      destruct (IH dec' (n - k)) as (r & E & Hs & H0 & Hall); [lia | lia | ].
      rewrite E. eexists. split; [reflexivity | ]. simpl.
      split; [lia | split; [exact H0 | constructor; [lia | exact Hall]]].
    + eexists. split; [reflexivity | ]. simpl. repeat split; try lia. constructor.
    + eexists. split; [reflexivity | ]. simpl. repeat split; try lia. constructor.
  - eexists. split; [reflexivity | ]. simpl. repeat split; try lia. constructor.
Qed.

(** A decoder that reports success without delivering a frame keeps the
    callback in its loop: no number of iterations ends it. *)
Lemma playback_cb_spins decoder read (dec : decoder) frame_count :
  0 < frame_count < 2 ^ 32 ->
  read dec frame_count = (MA_SUCCESS, 0, dec) ->
  forall fuel, playback_cb decoder read fuel dec frame_count = None.
Proof.
  intros Hn Hr. induction fuel as [ | fuel IH]; [reflexivity | ].
  simpl. destruct (Z.ltb_spec 0 frame_count); [ | lia].
  rewrite Hr.
  replace (wrap32 (frame_count - wrap32 0)) with frame_count.
  - rewrite IH. reflexivity.
  - unfold wrap32. rewrite Z.mod_0_l by lia. rewrite Z.sub_0_r.
    symmetry. apply Z.mod_small. lia.
Qed.

Lemma cursor_read_delivers L : delivers_frames Z (cursor_read L).
Proof.
  intros c n Hn. unfold cursor_read.
  destruct (Z.ltb_spec c L); simpl; [lia | discriminate].
Qed.

(** Property X23: with a decoder that delivers between one frame and the
    frames asked for whenever it reports success, [playback_cb] returns
    after at most [frame_count] reads; the frames it read and the frames
    it still wanted when it stopped add up to [frame_count], so it never
    reads more than it was asked for. *)
Theorem playback_cb_terminates decoder read fuel (dec : decoder) frame_count :
  delivers_frames decoder read ->
  0 <= frame_count < 2 ^ 32 ->
  (Z.to_nat frame_count < fuel)%nat ->
  exists r,
    playback_cb decoder read fuel dec frame_count = Some r /\
    fold_right Z.add 0 (pb_reads r) + pb_frame_count r = frame_count /\
    0 <= pb_frame_count r /\
    Forall (fun k => 0 < k) (pb_reads r).
Proof. intros Hc. apply playback_cb_returns. exact Hc. Qed.

Lemma playback_cb_terminates_witness :
  exists r,
    playback_cb Z (cursor_read 1000) 513 900 512 = Some r /\
    fold_right Z.add 0 (pb_reads r) + pb_frame_count r = 512 /\
    0 <= pb_frame_count r /\
    Forall (fun k => 0 < k) (pb_reads r).
Proof.
  apply (playback_cb_terminates Z (cursor_read 1000) 513 900 512).
  - apply cursor_read_delivers.
  - lia.
  - vm_compute. lia.
Defined.
